(** * Incremental transcript synchronisation: the real-time typing manager

    A shallow embedding of [src/core/realtime_typing_manager.py] (class
    [RealtimeTypingManager]) and of the part of [src/core/config.py] it
    reads, followed by the properties of the synchronisation engine.

    Modelling conventions.
    - A Python [str] is a list of code points.  Code points are taken
      below U+0100 and represented by [ascii]; [isspace] and [lower_char]
      are Python's [str.isspace] and [str.lower] on that range.
    - [time.time()] is a rational number of seconds, handed to each entry
      point as the value its single clock read returns.
    - [pyautogui] is the edit sink.  Every call is recorded in a trace; an
      oracle [sink_ok] tells, for each attempted call, whether the call
      returns or raises.
    - The [while] loop of [_replace_typed_text] runs on fuel; running out
      of fuel is a separate outcome, distinct from returning and raising.
    - [typing_lock] and [_debug_print] have no effect on the values
      computed and are left out.
    - [import pyautogui] is taken to succeed: the module is installed.
      Where it is not, [_type_realtime_text] and [_type_final_text_direct]
      catch the [ImportError] like a sink failure, while
      [_finalize_realtime_text], whose import stands before its [try],
      lets it through; that case is outside the model, and no property
      below says that [finalize_text] cannot raise. *)

From Stdlib Require Import Ascii String List ZArith NArith QArith Bool Lia Lqa.
Import ListNotations.

Set Implicit Arguments.

(** ** Python strings *)

Definition str := list ascii.

Definition lit (s : string) : str := list_ascii_of_string s.

Definition code (c : ascii) : N := N_of_ascii c.

(** [str.isspace] on one code point below U+0100: TAB..CR, FS..US, SPACE,
    NEL and NBSP.  The regular-expression class [\s] of a [str] pattern is
    the same set. *)
Definition isspace (c : ascii) : bool :=
  let n := code c in
  (((9 <=? n) && (n <=? 13)) || ((28 <=? n) && (n <=? 32))
   || (n =? 133) || (n =? 160))%N.

(** [str.lower] on one code point below U+0100: A..Z and the Latin-1
    capitals (all of U+00C0..U+00DE but the multiplication sign). *)
Definition lower_char (c : ascii) : ascii :=
  let n := code c in
  if (((65 <=? n) && (n <=? 90))
      || ((192 <=? n) && (n <=? 222) && negb (n =? 215)))%N
  then ascii_of_N (n + 32) else c.

Definition lower (s : str) : str := map lower_char s.

(** Truthiness of a string: [bool(s)]. *)
Definition truthy (s : str) : bool :=
  match s with [] => false | _ :: _ => true end.

Fixpoint str_eqb (a b : str) : bool :=
  match a, b with
  | [], [] => true
  | x :: a', y :: b' => Ascii.eqb x y && str_eqb a' b'
  | _, _ => false
  end.

(** [s.startswith(p)] *)
Fixpoint startswith (s p : str) {struct p} : bool :=
  match p with
  | [] => true
  | y :: p' =>
      match s with
      | [] => false
      | x :: s' => Ascii.eqb x y && startswith s' p'
      end
  end.

(** [s[n:]] *)
Definition slice_from (n : nat) (s : str) : str := skipn n s.

(** Removal of the longest prefix, resp. suffix, made of characters of a
    class. *)
Fixpoint lstrip_with (P : ascii -> bool) (s : str) : str :=
  match s with
  | [] => []
  | c :: t => if P c then lstrip_with P t else s
  end.

Fixpoint rstrip_with (P : ascii -> bool) (s : str) : str :=
  match s with
  | [] => []
  | c :: t =>
      let t' := rstrip_with P t in
      if P c && negb (truthy t') then [] else c :: t'
  end.

(** [s.strip()] *)
Definition strip (s : str) : str :=
  rstrip_with isspace (lstrip_with isspace s).

(** The class [[.!?\s]] of the first regular expression of [normalize]. *)
Definition trailing_class (c : ascii) : bool :=
  Ascii.eqb c "."%char || Ascii.eqb c "!"%char || Ascii.eqb c "?"%char
  || isspace c.

(** [re.sub(r"[.!?\s]+$", "", s)].  The leftmost match of a non-empty run
    of the class that reaches the end of the string is the longest suffix
    made of the class; [$] before a final newline adds nothing, a newline
    being in the class. *)
Definition re_sub_trailing (s : str) : str := rstrip_with trailing_class s.

(** [re.sub(r"\s+", " ", s)]: every maximal run of whitespace becomes one
    space.  [in_run] tells that the previous character was whitespace. *)
Fixpoint collapse_ws (in_run : bool) (s : str) : str :=
  match s with
  | [] => []
  | c :: t =>
      if isspace c
      then (if in_run then collapse_ws true t
            else " "%char :: collapse_ws true t)
      else c :: collapse_ws false t
  end.

Definition re_sub_spaces (s : str) : str := collapse_ws false s.

(** The local function [normalize] of [_is_redundant_with_finalized]. *)
Definition normalize (s : str) : str :=
  let s := lower (strip s) in
  let s := re_sub_trailing s in
  let s := re_sub_spaces s in
  s.

(** ** Configuration ([src/core/config.py])

    The typing manager reads [basic.realtime_typing],
    [realtime.finalize_suppress_window] and
    [realtime.max_backspaces_per_update]; [STTConfig] is restricted to the
    two sections holding them.  The dataclasses check neither the type nor
    the range of a field. *)

Record BasicSettings := {
  model : str;
  auto_punctuation : bool;
  auto_capitalize : bool;
  insert_mode : str;
  realtime_typing : bool
}.

Definition BasicSettings_default : BasicSettings := {|
  model := lit "small.en";
  auto_punctuation := true;
  auto_capitalize := true;
  insert_mode := lit "type";
  realtime_typing := false
|}.

Record RealtimeSettings := {
  processing_pause : Q;
  post_speech_silence_duration : Q;
  min_length_of_recording : Q;
  min_gap_between_recordings : Q;
  finalize_suppress_window : Q;
  max_backspaces_per_update : Z
}.

Definition RealtimeSettings_default : RealtimeSettings := {|
  processing_pause := 2 # 100;
  post_speech_silence_duration := 7 # 10;
  min_length_of_recording := 3 # 10;
  min_gap_between_recordings := 0;
  finalize_suppress_window := 5 # 10;
  max_backspaces_per_update := 512
|}.

Record STTConfig := {
  basic : BasicSettings;
  realtime : RealtimeSettings
}.

(** [STTConfig()] after [__post_init__]. *)
Definition STTConfig_default : STTConfig :=
  {| basic := BasicSettings_default; realtime := RealtimeSettings_default |}.

(** The keyword arguments a JSON section supplies to a dataclass
    constructor: one optional value per field, and whether the section has
    a key that is no field of the dataclass (a [TypeError]). *)
Record BasicKwargs := {
  kw_model : option str;
  kw_auto_punctuation : option bool;
  kw_auto_capitalize : option bool;
  kw_insert_mode : option str;
  kw_realtime_typing : option bool;
  kw_basic_unexpected : bool
}.

Record RealtimeKwargs := {
  kw_processing_pause : option Q;
  kw_post_speech_silence_duration : option Q;
  kw_min_length_of_recording : option Q;
  kw_min_gap_between_recordings : option Q;
  kw_finalize_suppress_window : option Q;
  kw_max_backspaces_per_update : option Z;
  kw_realtime_unexpected : bool
}.

Definition or_default {A : Type} (o : option A) (d : A) : A :=
  match o with Some a => a | None => d end.

(** [BasicSettings] built from the keywords of a section; [None] is the
    [TypeError]. *)
Definition BasicSettings_init (kw : BasicKwargs) : option BasicSettings :=
  if kw_basic_unexpected kw then None
  else Some {|
    model := or_default (kw_model kw) (model BasicSettings_default);
    auto_punctuation :=
      or_default (kw_auto_punctuation kw)
                 (auto_punctuation BasicSettings_default);
    auto_capitalize :=
      or_default (kw_auto_capitalize kw)
                 (auto_capitalize BasicSettings_default);
    insert_mode :=
      or_default (kw_insert_mode kw) (insert_mode BasicSettings_default);
    realtime_typing :=
      or_default (kw_realtime_typing kw)
                 (realtime_typing BasicSettings_default)
  |}.

(** [RealtimeSettings] built from the keywords of a section; [None] is
    the [TypeError]. *)
Definition RealtimeSettings_init (kw : RealtimeKwargs)
  : option RealtimeSettings :=
  if kw_realtime_unexpected kw then None
  else Some {|
    processing_pause :=
      or_default (kw_processing_pause kw)
                 (processing_pause RealtimeSettings_default);
    post_speech_silence_duration :=
      or_default (kw_post_speech_silence_duration kw)
                 (post_speech_silence_duration RealtimeSettings_default);
    min_length_of_recording :=
      or_default (kw_min_length_of_recording kw)
                 (min_length_of_recording RealtimeSettings_default);
    min_gap_between_recordings :=
      or_default (kw_min_gap_between_recordings kw)
                 (min_gap_between_recordings RealtimeSettings_default);
    finalize_suppress_window :=
      or_default (kw_finalize_suppress_window kw)
                 (finalize_suppress_window RealtimeSettings_default);
    max_backspaces_per_update :=
      or_default (kw_max_backspaces_per_update kw)
                 (max_backspaces_per_update RealtimeSettings_default)
  |}.

(** The decoded settings file.  Between ['basic'] and ['realtime'] the
    loader builds [WakeWordSettings]; of that section only whether its
    constructor raises matters here.  The sections after ['realtime'] are
    assigned later and cannot change the two modelled ones. *)
Record SettingsData := {
  d_basic : option BasicKwargs;
  d_wake_word_raises : bool;
  d_realtime : option RealtimeKwargs
}.

Inductive SettingsFile :=
| FileMissing
| FileUnreadable
| FileJson (data : SettingsData).

(** ** Outcomes and the effect monad *)

Inductive Outcome (A : Type) :=
| Returned (a : A)
| Raised
| OutOfFuel.

Arguments Raised {A}.
Arguments OutOfFuel {A}.

Definition Eff (S A : Type) : Type := S -> Outcome A * S.

Definition ret {S A : Type} (a : A) : Eff S A := fun s => (Returned a, s).

Definition bind {S A B : Type} (m : Eff S A) (k : A -> Eff S B) : Eff S B :=
  fun s =>
    match m s with
    | (Returned a, s') => k a s'
    | (Raised, s') => (Raised, s')
    | (OutOfFuel, s') => (OutOfFuel, s')
    end.

Definition raise {S A : Type} : Eff S A := fun s => (Raised, s).

Definition diverge {S A : Type} : Eff S A := fun s => (OutOfFuel, s).

Definition get {S : Type} : Eff S S := fun s => (Returned s, s).

Definition modify {S : Type} (f : S -> S) : Eff S unit :=
  fun s => (Returned tt, f s).

(** [try: m except Exception: h].  What [m] did to the state before it
    raised stays done. *)
Definition try_except {S A : Type} (m h : Eff S A) : Eff S A :=
  fun s =>
    match m s with
    | (Raised, s') => h s'
    | r => r
    end.

Declare Scope eff_scope.
Delimit Scope eff_scope with eff.
Notation "x <- m ;; k" := (bind m (fun x => k))
  (at level 61, m at next level, right associativity) : eff_scope.
Notation "m ;; k" := (bind m (fun _ => k))
  (at level 61, right associativity) : eff_scope.
Open Scope eff_scope.

(** [ConfigManager.load_settings], on the configuration object. *)
Definition load_section {K T : Type} (present : option K)
    (init : K -> option T) (store : T -> STTConfig -> STTConfig)
  : Eff STTConfig unit :=
  match present with
  | None => ret tt
  | Some kw =>
      match init kw with
      | Some v => modify (store v)
      | None => raise
      end
  end.

Definition set_basic (b : BasicSettings) (c : STTConfig) : STTConfig :=
  {| basic := b; realtime := realtime c |}.

Definition set_realtime (r : RealtimeSettings) (c : STTConfig) : STTConfig :=
  {| basic := basic c; realtime := r |}.

Definition load_settings (file : SettingsFile) : Eff STTConfig unit :=
  match file with
  | FileMissing => ret tt
  | FileUnreadable => try_except raise (ret tt)
  | FileJson data =>
      try_except
        (load_section (d_basic data) BasicSettings_init set_basic ;;
         (if d_wake_word_raises data then raise else ret tt) ;;
         load_section (d_realtime data) RealtimeSettings_init set_realtime)
        (ret tt)
  end.

(** [ConfigManager.__init__] followed by reading [.config]: what
    [get_config().config] holds when the typing manager is built. *)
Definition ConfigManager_init (file : SettingsFile) : Outcome STTConfig :=
  match load_settings file STTConfig_default with
  | (Returned _, c) => Returned c
  | (Raised, _) => Raised
  | (OutOfFuel, _) => OutOfFuel
  end.

(** ** The edit sink ([pyautogui]) *)

Inductive SinkEvent :=
| Typewrite (s : str)
| PressBackspace
| Sleep.

(** [typed] lists, oldest first, the calls that returned and the pauses
    between delete batches; [attempts] counts the calls made. *)
Record Sink := {
  attempts : nat;
  typed : list SinkEvent
}.

(** ** The typing manager *)

Record RealtimeTypingManager := {
  last_typed_text : str;
  last_finalized_text : str;
  suppress_realtime_until : Q
}.

(** [RealtimeTypingManager.__init__] *)
Definition RealtimeTypingManager_init : RealtimeTypingManager := {|
  last_typed_text := [];
  last_finalized_text := [];
  suppress_realtime_until := 0
|}.

(** Session start: building the manager takes the configuration from
    [get_config()] and starts from the empty state. *)
Definition RealtimeTypingManager_new (file : SettingsFile)
  : Outcome (STTConfig * RealtimeTypingManager) :=
  match ConfigManager_init file with
  | Returned c => Returned (c, RealtimeTypingManager_init)
  | Raised => Raised
  | OutOfFuel => OutOfFuel
  end.

Record World := {
  self : RealtimeTypingManager;
  gui : Sink
}.

Definition set_last_typed_text (v : str) (w : World) : World :=
  {| self := {| last_typed_text := v;
                last_finalized_text := last_finalized_text (self w);
                suppress_realtime_until := suppress_realtime_until (self w) |};
     gui := gui w |}.

Definition set_last_finalized_text (v : str) (w : World) : World :=
  {| self := {| last_typed_text := last_typed_text (self w);
                last_finalized_text := v;
                suppress_realtime_until := suppress_realtime_until (self w) |};
     gui := gui w |}.

Definition set_suppress_realtime_until (v : Q) (w : World) : World :=
  {| self := {| last_typed_text := last_typed_text (self w);
                last_finalized_text := last_finalized_text (self w);
                suppress_realtime_until := v |};
     gui := gui w |}.

(** [a < b] on clock values. *)
Definition Qltb (a b : Q) : bool :=
  match a ?= b with Lt => true | _ => false end.

(** [not text or not text.strip()] *)
Definition blank (text : str) : bool :=
  negb (truthy text) || negb (truthy (strip text)).

(** [_is_redundant_with_finalized]; [normalize] raises on no string, so
    the handler of the [try] is never entered. *)
Definition _is_redundant_with_finalized (m : RealtimeTypingManager)
    (text : str) : bool :=
  if negb (truthy (last_finalized_text m)) then false
  else
    let new_normalized := normalize text in
    let finalized_normalized := normalize (last_finalized_text m) in
    truthy new_normalized && truthy finalized_normalized
    && startswith finalized_normalized new_normalized.

Section Engine.

Variable config : STTConfig.
Variable sink_ok : nat -> bool.

(** One call into [pyautogui]. *)
Definition sink_call (e : SinkEvent) : Eff World unit :=
  fun w =>
    let k := attempts (gui w) in
    if sink_ok k
    then (Returned tt,
          {| self := self w;
             gui := {| attempts := S k; typed := typed (gui w) ++ [e] |} |})
    else (Raised,
          {| self := self w;
             gui := {| attempts := S k; typed := typed (gui w) |} |}).

Definition typewrite (s : str) : Eff World unit := sink_call (Typewrite s).

Definition press_backspace : Eff World unit := sink_call PressBackspace.

(** [time.sleep(0.001)] between two delete batches. *)
Definition sleep : Eff World unit :=
  fun w =>
    (Returned tt,
     {| self := self w;
        gui := {| attempts := attempts (gui w);
                  typed := typed (gui w) ++ [Sleep] |} |}).

(** [for _ in range(batch_size): pyautogui.press('backspace')] *)
Fixpoint press_batch (n : nat) : Eff World unit :=
  match n with
  | O => ret tt
  | S n' => press_backspace ;; press_batch n'
  end.

(** The [while remaining > 0] loop of [_replace_typed_text]. *)
Fixpoint backspace_loop (fuel : nat) (max_backspaces remaining : Z)
  : Eff World unit :=
  if (remaining >? 0)%Z then
    match fuel with
    | O => diverge
    | S fuel' =>
        let batch_size := Z.min remaining max_backspaces in
        press_batch (Z.to_nat batch_size) ;;
        let remaining := (remaining - batch_size)%Z in
        (if (remaining >? 0)%Z then sleep else ret tt) ;;
        backspace_loop fuel' max_backspaces remaining
    end
  else ret tt.

Definition _replace_typed_text (fuel : nat) (old_text new_text : str)
  : Eff World unit :=
  let old_len := Z.of_nat (length old_text) in
  (if (old_len >? 0)%Z
   then backspace_loop fuel
          (max_backspaces_per_update (realtime config)) old_len
   else ret tt) ;;
  if truthy new_text then typewrite new_text else ret tt.

Definition _type_realtime_text (fuel : nat) (text : str) : Eff World unit :=
  if negb (truthy text) then ret tt
  else
    try_except
      (w <- get ;;
       let old_text := last_typed_text (self w) in
       let new_text := text in
       if str_eqb new_text old_text then ret tt
       else
         (if startswith new_text old_text
          then
            let suffix := slice_from (length old_text) new_text in
            if truthy suffix then typewrite suffix else ret tt
          else _replace_typed_text fuel old_text new_text) ;;
         modify (set_last_typed_text new_text))
      (modify (set_last_typed_text [])).

(** [now] is the value [time.time()] returns at the suppression test. *)
Definition process_realtime_update (fuel : nat) (now : Q) (text : str)
  : Eff World bool :=
  if blank text then ret false
  else if negb (realtime_typing (basic config)) then ret false
  else
    w <- get ;;
    if Qltb now (suppress_realtime_until (self w)) then ret false
    else if _is_redundant_with_finalized (self w) text then ret false
    else _type_realtime_text fuel text ;; ret true.

(** [now] is the value [time.time()] returns when the suppression
    deadline is set, after the sink calls. *)
Definition _finalize_realtime_text (fuel : nat) (now : Q) (final_text : str)
  : Eff World bool :=
  try_except
    (let final_with_space := final_text ++ lit " " in
     w <- get ;;
     let old_live_text := last_typed_text (self w) in
     (if startswith final_with_space old_live_text
      then
        let suffix := slice_from (length old_live_text) final_with_space in
        if truthy suffix then typewrite suffix else ret tt
      else _replace_typed_text fuel old_live_text final_with_space) ;;
     modify (set_last_typed_text []) ;;
     modify (set_last_finalized_text final_text) ;;
     modify (set_suppress_realtime_until
               (now + finalize_suppress_window (realtime config))) ;;
     ret true)
    (ret false).

Definition _type_final_text_direct (final_text : str) : Eff World bool :=
  try_except
    (typewrite (final_text ++ lit " ") ;;
     modify (set_last_finalized_text final_text) ;;
     ret true)
    (ret false).

Definition finalize_text (fuel : nat) (now : Q) (final_text : str)
  : Eff World bool :=
  if blank final_text then ret false
  else
    w <- get ;;
    if str_eqb final_text (last_finalized_text (self w)) then ret false
    else if realtime_typing (basic config)
    then _finalize_realtime_text fuel now final_text
    else _type_final_text_direct final_text.

Definition reset_state : Eff World unit :=
  modify (set_last_typed_text []) ;;
  modify (set_last_finalized_text []) ;;
  modify (set_suppress_realtime_until 0).

End Engine.

(** ** Vocabulary of the properties *)

(** A world with the given manager fields and sink. *)
Definition world (m : RealtimeTypingManager) (s : Sink) : World :=
  {| self := m; gui := s |}.

(** The sink events a run added to the trace [before]. *)
Definition emitted (before after : Sink) : list SinkEvent :=
  skipn (length (typed before)) (typed after).

(** [n] presses of backspace in a row. *)
Definition presses (n : nat) : list SinkEvent := repeat PressBackspace n.

(** Delete batches of the given sizes, a pause between two of them. *)
Fixpoint batches (sizes : list nat) : list SinkEvent :=
  match sizes with
  | [] => []
  | [n] => presses n
  | n :: rest => presses n ++ Sleep :: batches rest
  end.

(** The sink never raises from call [k] on, for [n] calls. *)
Definition sink_ok_from (sink_ok : nat -> bool) (k n : nat) : Prop :=
  forall i, (i < n)%nat -> sink_ok (k + i)%nat = true.

(** [ceil(a / b)] for [b > 0]. *)
Definition ceil_div (a b : nat) : nat := ((a + b - 1) / b)%nat.

(** The world after [n] more sink calls that added the events [evs]. *)
Definition advance (w : World) (n : nat) (evs : list SinkEvent) : World :=
  {| self := self w;
     gui := {| attempts := attempts (gui w) + n;
               typed := typed (gui w) ++ evs |} |}.

(** The sizes of the delete batches the loop of [_replace_typed_text] makes
    for [remaining] characters and a bound [b] on the batch. *)
Fixpoint batch_sizes (fuel b remaining : nat) : list nat :=
  match fuel with
  | O => []
  | S fuel' =>
      match remaining with
      | O => []
      | S _ =>
          let size := Nat.min remaining b in
          size :: batch_sizes fuel' b (remaining - size)
      end
  end.

(** The edit planner as the specification words it (section 4.3): the
    operation for an old and a new text, and the sink events that carry an
    operation out with delete batches of at most [b] backspaces.  The code
    has no such function; its sink calls are compared with this one. *)
Inductive EditOperation :=
| Append (suffix : str)
| Replace (deleteCount : nat) (insertText : str)
| Noop.

Definition plan (old new : str) : EditOperation :=
  if str_eqb new old then Noop
  else if startswith new old then Append (slice_from (length old) new)
  else Replace (length old) new.

Definition sink_events (b : nat) (op : EditOperation) : list SinkEvent :=
  match op with
  | Noop => []
  | Append suffix => [Typewrite suffix]
  | Replace n text =>
      batches (batch_sizes n b n)
      ++ (if truthy text then [Typewrite text] else [])
  end.

Definition sink_calls (op : EditOperation) : nat :=
  match op with
  | Noop => 0
  | Append _ => 1
  | Replace n text => n + (if truthy text then 1 else 0)
  end.

(** The state of the manager after a finalization at clock value [now]. *)
Definition finalized (config : STTConfig) (now : Q) (text : str)
  : RealtimeTypingManager :=
  {| last_typed_text := [];
     last_finalized_text := text;
     suppress_realtime_until :=
       now + finalize_suppress_window (realtime config) |}.

(** A computation that touches the sink only: it leaves the manager as it
    was, every sink call it made but the last returned, and unless it
    raised the last returned too.  So the call that raises is the last one
    made. *)
Definition disciplined {A : Type} (sink_ok : nat -> bool) (X : Eff World A)
  : Prop :=
  forall w r w',
    X w = (r, w') ->
    self w' = self w
    /\ (attempts (gui w) <= attempts (gui w'))%nat
    /\ (forall k, (attempts (gui w) <= k)%nat ->
                  (S k < attempts (gui w'))%nat -> sink_ok k = true)
    /\ (r <> Raised ->
        forall k, (attempts (gui w) <= k < attempts (gui w'))%nat ->
                  sink_ok k = true).

(** Some sink call made between two worlds raised. *)
Definition sink_raised (sink_ok : nat -> bool) (w w' : World) : Prop :=
  exists k, (attempts (gui w) <= k < attempts (gui w'))%nat
            /\ sink_ok k = false.

(** A configuration with the three values the typing manager reads. *)
Definition config_with (echo : bool) (window : Q) (max_backspaces : Z)
  : STTConfig :=
  {| basic :=
       {| model := model BasicSettings_default;
          auto_punctuation := auto_punctuation BasicSettings_default;
          auto_capitalize := auto_capitalize BasicSettings_default;
          insert_mode := insert_mode BasicSettings_default;
          realtime_typing := echo |};
     realtime :=
       {| processing_pause := processing_pause RealtimeSettings_default;
          post_speech_silence_duration :=
            post_speech_silence_duration RealtimeSettings_default;
          min_length_of_recording :=
            min_length_of_recording RealtimeSettings_default;
          min_gap_between_recordings :=
            min_gap_between_recordings RealtimeSettings_default;
          finalize_suppress_window := window;
          max_backspaces_per_update := max_backspaces |} |}.

(** A sink nothing was sent to yet, and the world of a manager whose live
    text is [live] and last finalized text [finalized]. *)
Definition fresh_sink : Sink := {| attempts := 0; typed := [] |}.

Definition world_with (live finalized : str) (deadline : Q) : World :=
  world {| last_typed_text := live;
           last_finalized_text := finalized;
           suppress_realtime_until := deadline |}
        fresh_sink.

(** A sink that never raises, and one that raises from call [k] on. *)
Definition reliable : nat -> bool := fun _ => true.

Definition raises_from (k : nat) : nat -> bool := fun i => Nat.ltb i k.

(** The number of backspaces among sink events. *)
Definition count_backspaces (evs : list SinkEvent) : nat :=
  length (filter (fun e => match e with PressBackspace => true | _ => false end)
                 evs).

(** A string that does not begin, resp. end, with a character of [P]. *)
Definition starts_outside (P : ascii -> bool) (s : str) : Prop :=
  match s with [] => True | c :: _ => P c = false end.

Definition ends_outside (P : ascii -> bool) (s : str) : Prop :=
  s = [] \/ exists s' c, s = s' ++ [c] /\ P c = false.

(** The strings [normalize] leaves unchanged. *)
Record normal (t : str) : Prop := {
  normal_starts : starts_outside isspace t;
  normal_ends : ends_outside trailing_class t;
  normal_lower : lower t = t;
  normal_collapsed : collapse_ws false t = t
}.

(** ** The rest of the two files and their caller *)

(** *** Keywords of a section *)


(** *** The recording front end
    ([src/core/unified_text_processor.py],
     [src/core/refactored_global_stt.py]) *)

Section FrontEnd.

Variable config : STTConfig.
Variable sink_ok : nat -> bool.

(** [str.upper] on a one-character string, a built-in taken as it comes:
    it may give two characters (U+00DF) or a character above U+00FF
    (U+00B5, U+00FF), so it is a parameter of the model. *)
Variable upper1 : ascii -> str.

(** [UnifiedTextProcessor.preprocess_realtime_text] *)
Definition preprocess_realtime_text (text : str) : str :=
  if negb (truthy text) then text
  else
    let text := lstrip_with isspace text in
    let text :=
      if startswith text (lit "...") then slice_from 3 text else text in
    let text := lstrip_with isspace text in
    match text with
    | [] => text
    | c :: rest => upper1 c ++ rest
    end.

(** [RefactoredGlobalSTTManager._on_realtime_update]; [is_recording] is
    the flag of the front end, [now] the clock value the typing manager
    reads. *)
Definition _on_realtime_update (is_recording : bool) (fuel : nat) (now : Q)
    (text : str) : Eff World unit :=
  if negb is_recording then ret tt
  else
    let processed_text := preprocess_realtime_text text in
    process_realtime_update config sink_ok fuel now processed_text ;;
    ret tt.

End FrontEnd.

(** [str.upper] on the ASCII letters, for examples. *)
Definition upper_ascii (c : ascii) : str :=
  let n := code c in
  if ((97 <=? n) && (n <=? 122))%N then [ascii_of_N (n - 32)] else [c].

(** *** Vocabulary of the further properties *)

(** The text an editable surface shows after sink events, for a surface
    that takes every typed character and on which a backspace removes the
    last character. *)
Definition apply_event (buffer : str) (e : SinkEvent) : str :=
  match e with
  | Typewrite s => buffer ++ s
  | PressBackspace => removelast buffer
  | Sleep => buffer
  end.

Definition render (evs : list SinkEvent) (buffer : str) : str :=
  fold_left apply_event evs buffer.

(** The surface of a world: all its sink events, from an empty surface. *)
Definition surface (w : World) : str := render (typed (gui w)) [].

(** The manager and the surface agree: the surface is the committed text
    followed by the live text. *)
Definition synced (committed : str) (w : World) : Prop :=
  surface w = committed ++ last_typed_text (self w).

Definition prefix_of (p s : str) : Prop := exists rest, s = p ++ rest.

(** The events of a session, as the transcript source and the front end
    deliver them to the public methods of the manager. *)
Inductive TranscriptEvent :=
| Partial (now : Q) (text : str)
| Final (now : Q) (text : str)
| Stop.

Definition handle (config : STTConfig) (sink_ok : nat -> bool) (fuel : nat)
    (e : TranscriptEvent) : Eff World unit :=
  match e with
  | Partial now text =>
      process_realtime_update config sink_ok fuel now text ;; ret tt
  | Final now text => finalize_text config sink_ok fuel now text ;; ret tt
  | Stop => reset_state
  end.

Fixpoint run_events (config : STTConfig) (sink_ok : nat -> bool)
    (fuel : nat) (events : list TranscriptEvent) : Eff World unit :=
  match events with
  | [] => ret tt
  | e :: rest =>
      handle config sink_ok fuel e ;; run_events config sink_ok fuel rest
  end.

(** The length of the texts of the partial events is at most [n]. *)
Definition partials_within (n : nat) (events : list TranscriptEvent) : Prop :=
  Forall (fun e => match e with
                   | Partial _ text => (length text <= n)%nat
                   | _ => True
                   end) events.

(** Every whitespace character is a space, and no two are adjacent. *)
Fixpoint single_spaced (after_space : bool) (s : str) : bool :=
  match s with
  | [] => true
  | c :: t =>
      if isspace c
      then Ascii.eqb c " "%char && negb after_space && single_spaced true t
      else single_spaced false t
  end.

(** A computation that only deletes: it leaves the manager as it was and
    adds sink events among which there is no [Typewrite] and at most [n]
    backspaces, exactly [n] when it returns. *)
Definition deletes_only {A : Type} (n : nat) (X : Eff World A) : Prop :=
  forall w r w',
    X w = (r, w') ->
    self w' = self w
    /\ exists evs,
         typed (gui w') = typed (gui w) ++ evs
         /\ (forall s, ~ In (Typewrite s) evs)
         /\ (count_backspaces evs <= n)%nat
         /\ ((exists a, r = Returned a) -> count_backspaces evs = n).

(** A computation that edits the live text [old] into [new]: when it
    returns, the surface shows [new] in place of [old]; when it is cut
    short, a part of [old] is left and nothing before it is touched. *)
Definition edits {A : Type} (old new : str) (X : Eff World A) : Prop :=
  forall w r w',
    X w = (r, w') ->
    self w' = self w
    /\ exists evs,
         typed (gui w') = typed (gui w) ++ evs
         /\ ((exists a, r = Returned a) ->
             forall buffer, render evs (buffer ++ old) = buffer ++ new)
         /\ ((forall a, r <> Returned a) ->
             exists k, (k <= length old)%nat
                       /\ forall buffer,
                            render evs (buffer ++ old)
                            = buffer ++ firstn (length old - k) old).

(** A stream of partial hypotheses handed to [_type_realtime_text] one
    after the other, and the texts of a stream that grows by the given
    suffixes from a first text. *)
Fixpoint type_each (config : STTConfig) (sink_ok : nat -> bool) (fuel : nat)
    (texts : list str) : Eff World unit :=
  match texts with
  | [] => ret tt
  | text :: rest =>
      _type_realtime_text config sink_ok fuel text ;;
      type_each config sink_ok fuel rest
  end.

Fixpoint growing (start : str) (suffixes : list str) : list str :=
  match suffixes with
  | [] => []
  | suffix :: rest => (start ++ suffix) :: growing (start ++ suffix) rest
  end.

(** ** Characters *)

Ltac by_cases_on_char c :=
  destruct c as [[] [] [] [] [] [] [] []]; vm_compute; reflexivity.

Lemma lower_char_idem c : lower_char (lower_char c) = lower_char c.
Proof. by_cases_on_char c. Qed.

Lemma isspace_lower_char c : isspace (lower_char c) = isspace c.
Proof. by_cases_on_char c. Qed.

Lemma trailing_class_lower_char c :
  trailing_class (lower_char c) = trailing_class c.
Proof. by_cases_on_char c. Qed.

Lemma isspace_trailing_class c : isspace c = true -> trailing_class c = true.
Proof.
  intros H. unfold trailing_class. rewrite H. now rewrite !orb_true_r.
Qed.

Lemma lower_char_space : lower_char " "%char = " "%char.
Proof. reflexivity. Qed.

Lemma isspace_space : isspace " "%char = true.
Proof. reflexivity. Qed.

(** ** Strings *)

Lemma str_eqb_spec a b : reflect (a = b) (str_eqb a b).
Proof.
  revert b. induction a as [|x a IH]; intros [|y b]; simpl;
    try (constructor; congruence).
  destruct (Ascii.eqb_spec x y) as [->|Hxy]; simpl.
  - destruct (IH b) as [->|Hab]; constructor; congruence.
  - constructor; congruence.
Qed.

Lemma str_eqb_refl a : str_eqb a a = true.
Proof. now destruct (str_eqb_spec a a). Qed.

Lemma truthy_false s : truthy s = false <-> s = [].
Proof. destruct s; simpl; split; congruence. Qed.

Lemma truthy_true s : truthy s = true <-> s <> [].
Proof. destruct s; simpl; split; congruence. Qed.

Lemma truthy_app_r s t : truthy t = true -> truthy (s ++ t) = true.
Proof. destruct s, t; simpl; congruence. Qed.

(** [startswith] decides the prefix relation. *)
Lemma startswith_spec s p :
  startswith s p = true <-> exists rest, s = p ++ rest.
Proof.
  revert s. induction p as [|y p IH]; intros s; simpl.
  - split; [intros _; now exists s | reflexivity].
  - destruct s as [|x s].
    + split; [discriminate | intros [rest H]; discriminate].
    + rewrite andb_true_iff, IH. split.
      * intros [Hxy [rest ->]].
        destruct (Ascii.eqb_spec x y); [subst | discriminate].
        now exists rest.
      * intros [rest H]. injection H as -> ->.
        split; [apply Ascii.eqb_refl | now exists rest].
Qed.

Lemma startswith_app p rest : startswith (p ++ rest) p = true.
Proof. apply startswith_spec. now exists rest. Qed.

Lemma slice_from_app p rest : slice_from (length p) (p ++ rest) = rest.
Proof. unfold slice_from. induction p; simpl; auto. Qed.

Lemma startswith_length s p : startswith s p = true -> (length p <= length s)%nat.
Proof.
  intros H. apply startswith_spec in H as [rest ->].
  rewrite length_app. lia.
Qed.

(** *** Stripping *)

Lemma lstrip_with_all P s : forallb P s = true -> lstrip_with P s = [].
Proof.
  induction s as [|c s IH]; simpl; auto.
  intros H. apply andb_true_iff in H as [-> H]. auto.
Qed.

Lemma lstrip_with_nil_all P s : lstrip_with P s = [] -> forallb P s = true.
Proof.
  induction s as [|c s IH]; simpl; auto.
  destruct (P c); simpl; [auto | discriminate].
Qed.

Lemma lstrip_with_outside P s : starts_outside P (lstrip_with P s).
Proof.
  induction s as [|c s IH]; simpl; auto.
  destruct (P c) eqn:E; simpl; auto.
Qed.

Lemma lstrip_with_fix P s : starts_outside P s -> lstrip_with P s = s.
Proof. destruct s as [|c s]; simpl; auto. now intros ->. Qed.

Lemma lstrip_with_suffix P s :
  exists pre, s = pre ++ lstrip_with P s /\ forallb P pre = true.
Proof.
  induction s as [|c s [pre [E F]]]; simpl.
  - now exists [].
  - destruct (P c) eqn:Hc.
    + exists (c :: pre). simpl. rewrite Hc, F. split; [congruence | reflexivity].
    + now exists [].
Qed.

Lemma rstrip_with_outside P s : ends_outside P (rstrip_with P s).
Proof.
  induction s as [|c s IH]; simpl; [now left|].
  destruct (P c) eqn:Hc; simpl.
  - destruct IH as [-> | [s' [d [-> Hd]]]]; simpl; [now left|].
    rewrite truthy_app_r by reflexivity. simpl.
    right. now exists (c :: s'), d.
  - right. destruct IH as [-> | [s' [d [-> Hd]]]].
    + now exists [], c.
    + now exists (c :: s'), d.
Qed.

Lemma rstrip_with_keep P s c :
  P c = false -> rstrip_with P (s ++ [c]) = s ++ [c].
Proof.
  intros Hc. induction s as [|d s IH]; simpl.
  - now rewrite Hc.
  - rewrite IH. destruct s; simpl; now rewrite andb_false_r.
Qed.

Lemma rstrip_with_fix P s : ends_outside P s -> rstrip_with P s = s.
Proof.
  intros [-> | [s' [c [-> Hc]]]]; [reflexivity | now apply rstrip_with_keep].
Qed.

Lemma rstrip_with_prefix P s :
  exists suf, s = rstrip_with P s ++ suf /\ forallb P suf = true.
Proof.
  induction s as [|c s [suf [E F]]]; simpl.
  - now exists [].
  - destruct (P c && negb (truthy (rstrip_with P s))) eqn:G.
    + apply andb_true_iff in G as [Hc G].
      apply negb_true_iff, truthy_false in G. rewrite G in E. simpl in E.
      exists (c :: suf). simpl. rewrite Hc, F. split; [now subst | reflexivity].
    + exists suf. split; [simpl; f_equal; exact E | assumption].
Qed.

Lemma rstrip_with_starts P Q s :
  starts_outside Q s -> starts_outside Q (rstrip_with P s).
Proof.
  destruct s as [|c s]; simpl; auto.
  destruct (P c && negb (truthy (rstrip_with P s))); simpl; auto.
Qed.

Lemma rstrip_with_all P s : forallb P s = true -> rstrip_with P s = [].
Proof.
  induction s as [|c s IH]; simpl; auto.
  intros H. apply andb_true_iff in H as [-> H]. now rewrite IH.
Qed.

Lemma ends_outside_weaken (P Q : ascii -> bool) s :
  (forall c, Q c = true -> P c = true) ->
  ends_outside P s -> ends_outside Q s.
Proof.
  intros HPQ [-> | [s' [c [-> Hc]]]]; [now left|].
  right. exists s', c. split; auto.
  destruct (Q c) eqn:E; auto. apply HPQ in E. congruence.
Qed.

Lemma strip_nil_iff s : strip s = [] <-> forallb isspace s = true.
Proof.
  unfold strip. split.
  - intros H. apply lstrip_with_nil_all.
    pose proof (lstrip_with_outside isspace s) as Hout.
    destruct (lstrip_with isspace s) as [|c t]; auto.
    simpl in Hout, H. rewrite Hout in H. discriminate.
  - intros H. now rewrite lstrip_with_all.
Qed.

(** [not text or not text.strip()] holds exactly of the strings made of
    whitespace only, the empty one among them. *)
Lemma blank_spec s : blank s = forallb isspace s.
Proof.
  unfold blank. destruct s as [|c s]; [reflexivity|].
  simpl truthy at 1. simpl negb at 1. rewrite orb_false_l.
  destruct (forallb isspace (c :: s)) eqn:E.
  - apply strip_nil_iff in E. now rewrite E.
  - destruct (strip (c :: s)) eqn:S; [|reflexivity].
    apply strip_nil_iff in S. congruence.
Qed.

Lemma blank_false_truthy s : blank s = false -> truthy s = true.
Proof. destruct s; [discriminate | reflexivity]. Qed.

(** *** Lower-casing and whitespace collapsing *)

Lemma lower_idem s : lower (lower s) = lower s.
Proof.
  unfold lower. rewrite map_map. apply map_ext. apply lower_char_idem.
Qed.

Lemma lower_starts s :
  starts_outside isspace s -> starts_outside isspace (lower s).
Proof. destruct s; simpl; auto. now rewrite isspace_lower_char. Qed.

Lemma lower_truthy s : truthy (lower s) = truthy s.
Proof. now destruct s. Qed.

Lemma lower_rstrip_with P s :
  (forall c, P (lower_char c) = P c) ->
  lower (rstrip_with P s) = rstrip_with P (lower s).
Proof.
  intros HP. induction s as [|c s IH]; simpl; auto.
  rewrite <- IH, HP, lower_truthy.
  now destruct (P c && negb (truthy (rstrip_with P s))).
Qed.

Lemma lower_collapse_ws b s :
  lower (collapse_ws b s) = collapse_ws b (lower s).
Proof.
  revert b. induction s as [|c s IH]; intros b; simpl; auto.
  rewrite isspace_lower_char.
  destruct (isspace c), b; simpl; now rewrite ?IH.
Qed.

Lemma collapse_ws_idem b s :
  collapse_ws b (collapse_ws b s) = collapse_ws b s.
Proof.
  revert b. induction s as [|c s IH]; intros b; simpl; auto.
  destruct (isspace c) eqn:Hc.
  - destruct b; simpl; [apply IH|]. now rewrite IH.
  - simpl. now rewrite Hc, IH.
Qed.

Lemma collapse_ws_starts s :
  starts_outside isspace s -> starts_outside isspace (collapse_ws false s).
Proof. destruct s as [|c s]; simpl; auto. intros H. now rewrite H. Qed.

Lemma collapse_ws_app_keep b s c t :
  isspace c = false ->
  collapse_ws b (s ++ c :: t) = collapse_ws b s ++ c :: collapse_ws false t.
Proof.
  intros Hc. revert b. induction s as [|d s IH]; intros b; simpl.
  - now rewrite Hc.
  - destruct (isspace d), b; simpl; now rewrite IH.
Qed.

Lemma collapse_ws_ends b s :
  ends_outside trailing_class s ->
  ends_outside trailing_class (collapse_ws b s).
Proof.
  intros [-> | [s' [c [-> Hc]]]]; [now left|].
  right. exists (collapse_ws b s'), c. split; auto.
  apply collapse_ws_app_keep.
  destruct (isspace c) eqn:E; auto.
  apply isspace_trailing_class in E. congruence.
Qed.

(** *** The normal form [normalize] produces *)

Lemma normalize_normal s : normal (normalize s).
Proof.
  unfold normalize, re_sub_spaces, re_sub_trailing, strip. split.
  - apply collapse_ws_starts, rstrip_with_starts, lower_starts,
      rstrip_with_starts, lstrip_with_outside.
  - apply collapse_ws_ends, rstrip_with_outside.
  - rewrite lower_collapse_ws, lower_rstrip_with, lower_idem; auto.
    apply trailing_class_lower_char.
  - apply collapse_ws_idem.
Qed.

Lemma normalize_fix t : normal t -> normalize t = t.
Proof.
  intros [Hs He Hl Hc].
  unfold normalize, re_sub_spaces, re_sub_trailing, strip.
  rewrite (lstrip_with_fix _ _ Hs).
  rewrite (rstrip_with_fix (P := isspace)).
  - rewrite Hl, (rstrip_with_fix He). exact Hc.
  - eapply ends_outside_weaken; [|exact He]. apply isspace_trailing_class.
Qed.

Example normalize_sky :
  normalize (lit "  The   Sky is blue. !? ") = lit "the sky is blue".
Proof. reflexivity. Qed.

(** C9.  [normalize] is idempotent: normalising a normalised string changes
    nothing.  Its parts are the trim ([strip]), the lower-casing, the removal
    of the trailing run of ['.'], ['!'], ['?'] and whitespace, and the
    collapse of every whitespace run into one space. *)
Theorem normalize_idempotent (s : str) :
  normalize (normalize s) = normalize s.
Proof. apply normalize_fix, normalize_normal. Qed.

(** ** The redundancy detector *)

(** C5.  [_is_redundant_with_finalized] answers true exactly when the last
    finalized text is non-empty, both normalised strings are non-empty and
    the normalised finalized text starts with the normalised candidate.
    "the sky is blue" is redundant with "The sky is blue.", and a partial
    update carrying redundant text is dropped: no sink event, no change of
    state. *)
Theorem is_redundant_iff (m : RealtimeTypingManager) (candidate : str) :
  (_is_redundant_with_finalized m candidate = true <->
     last_finalized_text m <> []
     /\ normalize candidate <> []
     /\ normalize (last_finalized_text m) <> []
     /\ exists rest,
          normalize (last_finalized_text m) = normalize candidate ++ rest)
  /\ (last_finalized_text m = lit "The sky is blue." ->
      _is_redundant_with_finalized m (lit "the sky is blue") = true)
  /\ (_is_redundant_with_finalized m candidate = true ->
      forall config sink_ok fuel now s,
        process_realtime_update config sink_ok fuel now candidate (world m s)
        = (Returned false, world m s)).
Proof.
  split; [|split].
  - unfold _is_redundant_with_finalized.
    destruct (truthy (last_finalized_text m)) eqn:Hf; simpl.
    + rewrite !andb_true_iff, !truthy_true, startswith_spec.
      apply truthy_true in Hf. tauto.
    + apply truthy_false in Hf. split; [discriminate | tauto].
  - intros E. unfold _is_redundant_with_finalized. rewrite E. reflexivity.
  - intros R config sink_ok fuel now s. unfold process_realtime_update.
    destruct (blank candidate); [reflexivity|].
    destruct (realtime_typing (basic config)); [|reflexivity].
    unfold bind, get, ret, world; simpl.
    destruct (Qltb now (suppress_realtime_until m)); [reflexivity|].
    now rewrite R.
Qed.

Lemma is_redundant_iff_witness :
  let m := {| last_typed_text := [];
              last_finalized_text := lit "The sky is blue.";
              suppress_realtime_until := 0 |} in
  _is_redundant_with_finalized m (lit "the sky is blue") = true
  /\ forall s,
       process_realtime_update STTConfig_default (fun _ => true) 0 1
         (lit "the sky is blue") (world m s)
       = (Returned false, world m s).
Proof.
  intros m.
  destruct (is_redundant_iff m (lit "the sky is blue")) as [_ [H1 H2]].
  split.
  - apply H1. reflexivity.
  - intros s. apply H2. apply H1. reflexivity.
Defined.

(** ** The sink *)

Lemma advance_0 w : advance w 0 [] = w.
Proof.
  destruct w as [m [a t]]. unfold advance; simpl.
  now rewrite Nat.add_0_r, app_nil_r.
Qed.

Lemma advance_advance w n evs n' evs' :
  advance (advance w n evs) n' evs' = advance w (n + n') (evs ++ evs').
Proof.
  unfold advance; simpl. now rewrite Nat.add_assoc, app_assoc.
Qed.

Lemma sink_ok_from_le sink_ok k n n' :
  (n' <= n)%nat -> sink_ok_from sink_ok k n -> sink_ok_from sink_ok k n'.
Proof. intros L H i Hi. apply H. lia. Qed.

Lemma sink_ok_from_shift sink_ok k n j :
  sink_ok_from sink_ok k (j + n) -> sink_ok_from sink_ok (k + j) n.
Proof.
  intros H i Hi. replace (k + j + i)%nat with (k + (j + i))%nat by lia.
  apply H. lia.
Qed.

Lemma emitted_advance w n evs : emitted (gui w) (gui (advance w n evs)) = evs.
Proof.
  unfold emitted, advance; simpl.
  induction (typed (gui w)); simpl; auto.
Qed.

(** *** Batch sizes *)

Lemma batch_sizes_0 fuel b : batch_sizes fuel b 0 = [].
Proof. now destruct fuel. Qed.

Lemma batch_sizes_S fuel b n :
  batch_sizes (S fuel) b (S n)
  = Nat.min (S n) b :: batch_sizes fuel b (S n - Nat.min (S n) b).
Proof. reflexivity. Qed.

Lemma batch_sizes_sum fuel b n :
  (0 < b)%nat -> (n <= fuel)%nat -> list_sum (batch_sizes fuel b n) = n.
Proof.
  intros Hb. revert n. induction fuel as [|fuel IH]; intros n Hn.
  - replace n with 0%nat by lia. reflexivity.
  - destruct n as [|n]; [reflexivity|].
    rewrite batch_sizes_S.
    change (list_sum (?a :: ?l)) with (a + list_sum l)%nat.
    rewrite IH by lia. lia.
Qed.

Lemma batch_sizes_bounded fuel b n :
  (0 < b)%nat ->
  Forall (fun size => (1 <= size <= b)%nat) (batch_sizes fuel b n).
Proof.
  intros Hb. revert n. induction fuel as [|fuel IH]; intros n.
  - constructor.
  - destruct n as [|n]; [constructor|].
    rewrite batch_sizes_S. constructor; [lia | apply IH].
Qed.

Lemma ceil_div_small b n : (0 < n <= b)%nat -> ceil_div n b = 1%nat.
Proof.
  intros H. unfold ceil_div.
  replace (n + b - 1)%nat with ((n - 1) + 1 * b)%nat by lia.
  rewrite Nat.div_add by lia. rewrite Nat.div_small by lia. reflexivity.
Qed.

Lemma ceil_div_step b n :
  (0 < b)%nat -> (b <= n)%nat -> ceil_div n b = S (ceil_div (n - b) b).
Proof.
  intros Hb H. unfold ceil_div.
  replace (n + b - 1)%nat with ((n - b + b - 1) + 1 * b)%nat by lia.
  rewrite Nat.div_add by lia. lia.
Qed.

Lemma ceil_div_0 b : (0 < b)%nat -> ceil_div 0 b = 0%nat.
Proof. intros Hb. unfold ceil_div. apply Nat.div_small. lia. Qed.

Lemma batch_sizes_length fuel b n :
  (0 < b)%nat -> (n <= fuel)%nat ->
  length (batch_sizes fuel b n) = ceil_div n b.
Proof.
  intros Hb. revert n. induction fuel as [|fuel IH]; intros n Hn.
  - replace n with 0%nat by lia. simpl. now rewrite ceil_div_0.
  - destruct n as [|n]; [simpl; now rewrite ceil_div_0|].
    rewrite batch_sizes_S. cbn [length]. rewrite IH by lia.
    destruct (Nat.le_gt_cases b (S n)) as [L|G].
    + rewrite (ceil_div_step (n := S n)) by lia.
      now rewrite Nat.min_r by lia.
    + rewrite Nat.min_l by lia.
      rewrite (ceil_div_small (n := S n)) by lia.
      replace (S n - S n)%nat with 0%nat by lia. now rewrite ceil_div_0.
Qed.

Lemma count_backspaces_app a b :
  count_backspaces (a ++ b) = (count_backspaces a + count_backspaces b)%nat.
Proof. unfold count_backspaces. now rewrite filter_app, length_app. Qed.

Lemma count_backspaces_presses n : count_backspaces (presses n) = n.
Proof.
  unfold count_backspaces, presses.
  induction n; simpl; auto.
Qed.

Lemma count_backspaces_batches sizes :
  count_backspaces (batches sizes) = list_sum sizes.
Proof.
  induction sizes as [|n rest IH]; [reflexivity|].
  destruct rest as [|n' rest'].
  - simpl. rewrite count_backspaces_presses. lia.
  - change (batches (n :: n' :: rest'))
      with (presses n ++ Sleep :: batches (n' :: rest')).
    rewrite count_backspaces_app, count_backspaces_presses.
    change (Sleep :: batches (n' :: rest'))
      with ([Sleep] ++ batches (n' :: rest')).
    rewrite count_backspaces_app, IH. reflexivity.
Qed.

(** *** Sink calls that return *)

Section SinkFacts.

Variable config : STTConfig.
Variable sink_ok : nat -> bool.

Lemma sink_call_ok e w :
  sink_ok (attempts (gui w)) = true ->
  sink_call sink_ok e w = (Returned tt, advance w 1 [e]).
Proof.
  intros H. unfold sink_call, advance. rewrite H.
  now rewrite Nat.add_1_r.
Qed.

Lemma sink_call_raises e w :
  sink_ok (attempts (gui w)) = false ->
  sink_call sink_ok e w = (Raised, advance w 1 []).
Proof.
  intros H. unfold sink_call, advance. rewrite H.
  now rewrite Nat.add_1_r, app_nil_r.
Qed.

Lemma sink_ok_from_head k n :
  sink_ok_from sink_ok k (S n) -> sink_ok k = true.
Proof. intros H. rewrite <- (Nat.add_0_r k). apply H. lia. Qed.

Lemma sleep_ok w : sleep w = (Returned tt, advance w 0 [Sleep]).
Proof. unfold sleep, advance. now rewrite Nat.add_0_r. Qed.

Lemma press_batch_ok n w :
  sink_ok_from sink_ok (attempts (gui w)) n ->
  press_batch sink_ok n w = (Returned tt, advance w n (presses n)).
Proof.
  revert w. induction n as [|n IH]; intros w H.
  - simpl. unfold ret. now rewrite advance_0.
  - simpl. unfold bind, press_backspace.
    rewrite sink_call_ok by (eapply sink_ok_from_head; eauto).
    rewrite IH.
    + now rewrite advance_advance.
    + simpl. apply sink_ok_from_shift. exact H.
Qed.

Lemma backspace_loop_0 fuel b :
  backspace_loop sink_ok fuel b 0 = ret tt.
Proof. now destruct fuel. Qed.

Lemma backspace_loop_S fuel b remaining :
  (0 < remaining)%Z ->
  backspace_loop sink_ok (S fuel) b remaining
  = (press_batch sink_ok (Z.to_nat (Z.min remaining b)) ;;
     (if (remaining - Z.min remaining b >? 0)%Z then sleep else ret tt) ;;
     backspace_loop sink_ok fuel b (remaining - Z.min remaining b)).
Proof.
  intros H. simpl.
  destruct (Z.gtb_spec remaining 0); [reflexivity | lia].
Qed.

Lemma backspace_loop_stuck b remaining :
  (0 < remaining)%Z ->
  backspace_loop sink_ok 0 b remaining = diverge.
Proof.
  intros H. simpl. destruct (Z.gtb_spec remaining 0); [reflexivity | lia].
Qed.

(** With a positive bound the loop deletes [remaining] characters, in
    the batches of [batch_sizes], and returns. *)
Lemma backspace_loop_ok fuel b remaining w :
  (0 < b)%Z -> (remaining <= fuel)%nat ->
  sink_ok_from sink_ok (attempts (gui w)) remaining ->
  backspace_loop sink_ok fuel b (Z.of_nat remaining) w
  = (Returned tt,
     advance w remaining (batches (batch_sizes fuel (Z.to_nat b) remaining))).
Proof.
  intros Hb. revert remaining w.
  induction fuel as [|fuel IH]; intros remaining w Hfuel Hok.
  - replace remaining with 0%nat by lia. simpl. unfold ret.
    now rewrite advance_0.
  - destruct remaining as [|r].
    + rewrite backspace_loop_0. simpl. unfold ret. now rewrite advance_0.
    + rewrite backspace_loop_S by lia. rewrite batch_sizes_S.
      set (size := Nat.min (S r) (Z.to_nat b)).
      replace (Z.to_nat (Z.min (Z.of_nat (S r)) b)) with size by lia.
      replace (Z.of_nat (S r) - Z.min (Z.of_nat (S r)) b)%Z
        with (Z.of_nat (S r - size)) by lia.
      assert (Hsize : (1 <= size <= S r)%nat) by lia.
      unfold bind at 1.
      rewrite press_batch_ok by (eapply sink_ok_from_le; [|exact Hok]; lia).
      destruct (S r - size)%nat as [|r'] eqn:Hrest.
      * simpl Z.of_nat. simpl Z.gtb. cbv iota. unfold bind, ret at 1.
        rewrite backspace_loop_0, batch_sizes_0. unfold ret. simpl batches.
        replace size with (S r) by lia. reflexivity.
      * replace (Z.of_nat (S r') >? 0)%Z with true
          by (symmetry; apply Z.gtb_lt; lia).
        unfold bind at 1. rewrite sleep_ok.
        rewrite IH.
        -- rewrite !advance_advance. f_equal. f_equal; [lia|].
           destruct fuel as [|fuel']; [lia|].
           rewrite batch_sizes_S. reflexivity.
        -- lia.
        -- simpl. rewrite Nat.add_0_r. apply sink_ok_from_shift.
           eapply sink_ok_from_le; [|exact Hok]. lia.
Qed.

(** With a bound that is not positive the loop never ends: whatever the
    fuel, it runs out. *)
Lemma backspace_loop_diverges fuel b remaining w :
  (b <= 0)%Z -> (0 < remaining)%Z ->
  fst (backspace_loop sink_ok fuel b remaining w) = OutOfFuel.
Proof.
  intros Hb. revert remaining w.
  induction fuel as [|fuel IH]; intros remaining w Hr.
  - now rewrite backspace_loop_stuck.
  - rewrite backspace_loop_S by assumption.
    replace (Z.to_nat (Z.min remaining b)) with 0%nat by lia.
    unfold bind at 1. simpl press_batch. unfold ret at 1.
    replace (remaining - Z.min remaining b >? 0)%Z with true
      by (symmetry; apply Z.gtb_lt; lia).
    unfold bind at 1. rewrite sleep_ok. apply IH. lia.
Qed.

Lemma _replace_typed_text_ok fuel old_text new_text w :
  (0 < max_backspaces_per_update (realtime config))%Z ->
  (length old_text <= fuel)%nat ->
  sink_ok_from sink_ok (attempts (gui w))
    (length old_text + (if truthy new_text then 1 else 0)) ->
  _replace_typed_text config sink_ok fuel old_text new_text w
  = (Returned tt,
     advance w (length old_text + (if truthy new_text then 1 else 0))
       (batches
          (batch_sizes fuel
             (Z.to_nat (max_backspaces_per_update (realtime config)))
             (length old_text))
        ++ (if truthy new_text then [Typewrite new_text] else []))).
Proof.
  intros Hb Hfuel Hok. unfold _replace_typed_text.
  assert (Hloop :
    (if (Z.of_nat (length old_text) >? 0)%Z
     then backspace_loop sink_ok fuel
            (max_backspaces_per_update (realtime config))
            (Z.of_nat (length old_text))
     else ret tt) w
    = (Returned tt,
       advance w (length old_text)
         (batches
            (batch_sizes fuel
               (Z.to_nat (max_backspaces_per_update (realtime config)))
               (length old_text))))).
  { destruct (length old_text) as [|n] eqn:Hlen.
    - simpl. unfold ret. rewrite batch_sizes_0. now rewrite advance_0.
    - replace (Z.of_nat (S n) >? 0)%Z with true
        by (symmetry; apply Z.gtb_lt; lia).
      apply backspace_loop_ok; auto.
      eapply sink_ok_from_le; [|exact Hok]. lia. }
  unfold bind. rewrite Hloop.
  destruct (truthy new_text).
  - unfold typewrite. rewrite sink_call_ok.
    + now rewrite advance_advance.
    + simpl. rewrite <- (Nat.add_0_r (_ + _)).
      rewrite <- Nat.add_assoc. apply Hok. lia.
  - unfold ret. now rewrite Nat.add_0_r, app_nil_r.
Qed.

End SinkFacts.

(** ** The edit planner *)

Lemma str_eqb_app_false old suffix :
  suffix <> [] -> str_eqb (old ++ suffix) old = false.
Proof.
  intros H. destruct (str_eqb_spec (old ++ suffix) old) as [E|]; auto.
  apply (f_equal (@length ascii)) in E. rewrite length_app in E.
  destruct suffix; [congruence | simpl in E; lia].
Qed.

Lemma startswith_refl s : startswith s s = true.
Proof. apply startswith_spec. exists []. now rewrite app_nil_r. Qed.

Lemma batches_no_typewrite sizes s : ~ In (Typewrite s) (batches sizes).
Proof.
  assert (P : forall n, ~ In (Typewrite s) (presses n)).
  { intros n H. apply repeat_spec in H. discriminate. }
  induction sizes as [|n rest IH]; [auto|].
  destruct rest as [|n' rest']; [apply P|].
  change (batches (n :: n' :: rest'))
    with (presses n ++ Sleep :: batches (n' :: rest')).
  intros H. apply in_app_or in H as [H | [H | H]];
    [now apply (P n) | discriminate | now apply IH].
Qed.

(** C1.  When the new text is the live text followed by a non-empty
    suffix, the planned operation is [Append suffix] and
    [_type_realtime_text] carries it out: it makes one sink call, typing
    that suffix and nothing else (no backspace), and afterwards
    [last_typed_text] is the new text, the other two fields being as they
    were.  The sink is assumed not to raise on that call. *)
Theorem append_suffix (config : STTConfig) (sink_ok : nat -> bool)
    (fuel : nat) (old suffix : str) (w : World) :
  suffix <> [] ->
  last_typed_text (self w) = old ->
  sink_ok (attempts (gui w)) = true ->
  plan old (old ++ suffix) = Append suffix
  /\ _type_realtime_text config sink_ok fuel (old ++ suffix) w
     = (Returned tt,
        {| self :=
             {| last_typed_text := old ++ suffix;
                last_finalized_text := last_finalized_text (self w);
                suppress_realtime_until := suppress_realtime_until (self w) |};
           gui :=
             {| attempts := attempts (gui w) + 1;
                typed := typed (gui w) ++ [Typewrite suffix] |} |}).
Proof.
  intros Hsuf Hold Hok. split.
  { unfold plan.
    now rewrite str_eqb_app_false, startswith_app, slice_from_app. }
  unfold _type_realtime_text.
  rewrite truthy_app_r by now apply truthy_true.
  cbv [negb]. unfold try_except, bind at 1, get.
  rewrite Hold, str_eqb_app_false by assumption.
  unfold bind. rewrite startswith_app, slice_from_app.
  apply truthy_true in Hsuf. rewrite Hsuf.
  unfold typewrite. rewrite sink_call_ok by assumption.
  reflexivity.
Qed.

Lemma append_suffix_witness :
  plan (lit "Hello wor") (lit "Hello wor" ++ lit "ld") = Append (lit "ld")
  /\ _type_realtime_text STTConfig_default reliable 0
       (lit "Hello wor" ++ lit "ld") (world_with (lit "Hello wor") [] 0)
     = (Returned tt,
        {| self :=
             {| last_typed_text := lit "Hello world";
                last_finalized_text := [];
                suppress_realtime_until := 0 |};
           gui :=
             {| attempts := 1; typed := [Typewrite (lit "ld")] |} |}).
Proof.
  apply (@append_suffix STTConfig_default reliable 0
           (lit "Hello wor") (lit "ld") (world_with (lit "Hello wor") [] 0));
    [discriminate | reflexivity | reflexivity].
Defined.

(** The claim C2 read on every new text fails on the empty one:
    [_type_realtime_text] returns at once on an empty text, so none of the
    three characters of the live text is deleted. *)
Lemma replace_by_empty_text_counterexample :
  let old := lit "abc" in
  let new := lit "" in
  let w := world_with old [] 0 in
  startswith new old = false /\ new <> old
  /\ forall fuel,
       exists w',
         _type_realtime_text STTConfig_default reliable fuel new w
         = (Returned tt, w')
         /\ count_backspaces (emitted (gui w) (gui w')) <> length old.
Proof.
  cbv zeta. split; [reflexivity | split; [discriminate|]].
  intros fuel. eexists. split; [reflexivity|]. vm_compute. discriminate.
Qed.

(** C2 (amended).  When the new text is not empty and does not start with
    the live text, and [max_backspaces_per_update] is positive, the planned
    operation is a [Replace] and [_type_realtime_text] first deletes the [len(old)] characters of the
    live text, in [ceil(len(old)/B)] consecutive batches of at least one and
    at most [B] backspaces with a pause between two batches, then types the
    new text in one call, and [last_typed_text] becomes the new text.  The
    loop ends within [len(old)] rounds; the sink is assumed not to raise. *)
Theorem replace_in_batches (config : STTConfig) (sink_ok : nat -> bool)
    (fuel : nat) (old new : str) (w : World) :
  last_typed_text (self w) = old ->
  new <> [] ->
  startswith new old = false ->
  (0 < max_backspaces_per_update (realtime config))%Z ->
  (length old <= fuel)%nat ->
  sink_ok_from sink_ok (attempts (gui w)) (length old + 1) ->
  exists sizes,
    plan old new = Replace (length old) new
    /\ _type_realtime_text config sink_ok fuel new w
       = (Returned tt,
          {| self :=
               {| last_typed_text := new;
                  last_finalized_text := last_finalized_text (self w);
                  suppress_realtime_until :=
                    suppress_realtime_until (self w) |};
             gui :=
               {| attempts := attempts (gui w) + (length old + 1);
                  typed :=
                    typed (gui w) ++ batches sizes ++ [Typewrite new] |} |})
    /\ list_sum sizes = length old
    /\ Forall (fun size =>
                 (1 <= size)%nat
                 /\ (Z.of_nat size
                     <= max_backspaces_per_update (realtime config))%Z) sizes
    /\ length sizes
       = ceil_div (length old)
           (Z.to_nat (max_backspaces_per_update (realtime config))).
Proof.
  intros Hold Hnew Hdiff Hb Hfuel Hok.
  exists (batch_sizes fuel
            (Z.to_nat (max_backspaces_per_update (realtime config)))
            (length old)).
  split; [|split; [|split; [|split]]].
  - unfold plan. rewrite Hdiff.
    destruct (str_eqb_spec new old) as [->|_]; [|reflexivity].
    rewrite startswith_refl in Hdiff. discriminate.
  - unfold _type_realtime_text.
    apply truthy_true in Hnew. rewrite Hnew.
    cbv [negb]. unfold try_except, bind at 1, get. rewrite Hold.
    destruct (str_eqb_spec new old) as [->|_].
    { rewrite startswith_refl in Hdiff. discriminate. }
    rewrite Hdiff. unfold bind.
    rewrite _replace_typed_text_ok; rewrite ?Hnew; auto.
  - apply batch_sizes_sum; lia.
  - eapply Forall_impl; [|apply batch_sizes_bounded; lia].
    simpl. intros size H. lia.
  - apply batch_sizes_length; lia.
Qed.

Lemma replace_in_batches_witness :
  exists sizes,
    plan (lit "Hello") (lit "Goodbye") = Replace 5 (lit "Goodbye")
    /\ _type_realtime_text (config_with true (5 # 10) 2) reliable 5
         (lit "Goodbye") (world_with (lit "Hello") [] 0)
       = (Returned tt,
          {| self :=
               {| last_typed_text := lit "Goodbye";
                  last_finalized_text := [];
                  suppress_realtime_until := 0 |};
             gui :=
               {| attempts := 6;
                  typed := batches sizes ++ [Typewrite (lit "Goodbye")] |} |})
    /\ list_sum sizes = 5%nat
    /\ Forall (fun size => (1 <= size)%nat /\ (Z.of_nat size <= 2)%Z) sizes
    /\ length sizes = 3%nat.
Proof.
  apply (@replace_in_batches (config_with true (5 # 10) 2) reliable 5
           (lit "Hello") (lit "Goodbye") (world_with (lit "Hello") [] 0));
    [reflexivity | discriminate | reflexivity | reflexivity
     | simpl; lia | intros i _; reflexivity].
Defined.

(** The claim C8 fails on the code: with live text "Hello", the empty new
    text makes [_type_realtime_text] return at once, and no character of
    the live text is deleted. *)
Lemma empty_new_text_counterexample :
  let old := lit "Hello" in
  let w := world_with old [] 0 in
  old <> []
  /\ forall fuel,
       _type_realtime_text STTConfig_default reliable fuel [] w
       = (Returned tt, w)
       /\ emitted (gui w) (gui w) <> presses (length old).
Proof.
  cbv zeta. split; [discriminate|].
  intros fuel. split; [reflexivity | vm_compute; discriminate].
Qed.

(** C8 (amended).  [_replace_typed_text] called with an empty new text
    deletes every character of the old text, in batches, and types
    nothing; but [_type_realtime_text] never calls it so: on an empty text
    it returns at once, with no sink event and the live text kept. *)
Theorem empty_new_text (config : STTConfig) (sink_ok : nat -> bool)
    (fuel : nat) (old : str) (w : World) :
  old <> [] ->
  last_typed_text (self w) = old ->
  _type_realtime_text config sink_ok fuel [] w = (Returned tt, w)
  /\ ((0 < max_backspaces_per_update (realtime config))%Z ->
      (length old <= fuel)%nat ->
      sink_ok_from sink_ok (attempts (gui w)) (length old) ->
      exists sizes,
        _replace_typed_text config sink_ok fuel old [] w
        = (Returned tt, advance w (length old) (batches sizes))
        /\ count_backspaces (batches sizes) = length old
        /\ forall s, ~ In (Typewrite s) (batches sizes)).
Proof.
  intros Hne Hold. split; [reflexivity|].
  intros Hb Hfuel Hok.
  exists (batch_sizes fuel
            (Z.to_nat (max_backspaces_per_update (realtime config)))
            (length old)).
  split; [|split].
  - rewrite _replace_typed_text_ok; auto.
    + simpl. now rewrite Nat.add_0_r, app_nil_r.
    + simpl. now rewrite Nat.add_0_r.
  - rewrite count_backspaces_batches. apply batch_sizes_sum; lia.
  - intros s. apply batches_no_typewrite.
Qed.

Lemma empty_new_text_witness :
  _type_realtime_text (config_with true (5 # 10) 512) reliable 5 []
    (world_with (lit "Hello") [] 0)
  = (Returned tt, world_with (lit "Hello") [] 0)
  /\ exists sizes,
       _replace_typed_text (config_with true (5 # 10) 512) reliable 5
         (lit "Hello") [] (world_with (lit "Hello") [] 0)
       = (Returned tt,
          advance (world_with (lit "Hello") [] 0) 5 (batches sizes))
       /\ count_backspaces (batches sizes) = 5%nat
       /\ forall s, ~ In (Typewrite s) (batches sizes).
Proof.
  destruct (@empty_new_text (config_with true (5 # 10) 512) reliable 5
              (lit "Hello") (world_with (lit "Hello") [] 0))
    as [H1 H2]; [discriminate | reflexivity |].
  split; [exact H1|].
  apply H2; [reflexivity | simpl; lia | intros i _; reflexivity].
Defined.

(** *** The sink calls of both paths carry out the planned operation *)

Lemma batch_sizes_fuel fuel fuel' b n :
  (0 < b)%nat -> (n <= fuel)%nat -> (n <= fuel')%nat ->
  batch_sizes fuel b n = batch_sizes fuel' b n.
Proof.
  intros Hb. revert fuel' n.
  induction fuel as [|fuel IH]; intros fuel' n H H'.
  - replace n with 0%nat by lia. now rewrite !batch_sizes_0.
  - destruct n as [|n]; [now rewrite !batch_sizes_0|].
    destruct fuel' as [|fuel']; [lia|].
    rewrite !batch_sizes_S. f_equal. apply IH; lia.
Qed.

Lemma startswith_slice new old :
  startswith new old = true -> new = old ++ slice_from (length old) new.
Proof.
  intros H. apply startswith_spec in H as [rest ->].
  now rewrite slice_from_app.
Qed.

Lemma plan_noop_iff old new : plan old new = Noop <-> new = old.
Proof.
  unfold plan. destruct (str_eqb_spec new old) as [E|N].
  - tauto.
  - destruct (startswith new old); split; intros H; congruence.
Qed.

Lemma sink_events_nil_iff b old new :
  new <> [] -> (sink_events b (plan old new) = [] <-> new = old).
Proof.
  intros Hnew. rewrite <- plan_noop_iff. unfold plan.
  destruct (str_eqb_spec new old) as [E|N]; [simpl; tauto|].
  destruct (startswith new old) eqn:S; simpl.
  - split; discriminate.
  - apply truthy_true in Hnew. rewrite Hnew.
    split; [|discriminate].
    intros H. apply app_eq_nil in H as [_ H]. discriminate.
Qed.

Section PlannedEdits.

Variable config : STTConfig.
Variable sink_ok : nat -> bool.

Let b := Z.to_nat (max_backspaces_per_update (realtime config)).

(** The part common to [_type_realtime_text] and
    [_finalize_realtime_text]: append the suffix or replace. *)
Lemma edit_ok fuel old new w :
  (0 < max_backspaces_per_update (realtime config))%Z ->
  (length old <= fuel)%nat ->
  sink_ok_from sink_ok (attempts (gui w)) (sink_calls (plan old new)) ->
  (if startswith new old
   then
     let suffix := slice_from (length old) new in
     if truthy suffix then typewrite sink_ok suffix else ret tt
   else _replace_typed_text config sink_ok fuel old new) w
  = (Returned tt,
     advance w (sink_calls (plan old new)) (sink_events b (plan old new))).
Proof.
  intros Hb Hfuel. unfold plan.
  destruct (str_eqb_spec new old) as [->|Hne].
  - intros _. rewrite startswith_refl. cbv zeta.
    replace (slice_from (length old) old) with (@nil ascii).
    + simpl. unfold ret. now rewrite advance_0.
    + unfold slice_from. now rewrite skipn_all.
  - destruct (startswith new old) eqn:S; intros Hok.
    + cbv zeta.
      assert (T : truthy (slice_from (length old) new) = true).
      { apply truthy_true. intros E. apply Hne.
        rewrite (startswith_slice _ _ S), E. now rewrite app_nil_r. }
      rewrite T. unfold typewrite.
      rewrite sink_call_ok by (eapply sink_ok_from_head; exact Hok).
      reflexivity.
    + rewrite _replace_typed_text_ok by assumption.
      simpl sink_calls. simpl sink_events. f_equal. f_equal. f_equal.
      f_equal. apply batch_sizes_fuel; unfold b; lia.
Qed.

Lemma _finalize_realtime_text_ok fuel now text w :
  (0 < max_backspaces_per_update (realtime config))%Z ->
  (length (last_typed_text (self w)) <= fuel)%nat ->
  sink_ok_from sink_ok (attempts (gui w))
    (length (last_typed_text (self w)) + 1) ->
  let op := plan (last_typed_text (self w)) (text ++ lit " ") in
  _finalize_realtime_text config sink_ok fuel now text w
  = (Returned true,
     world (finalized config now text)
           (gui (advance w (sink_calls op) (sink_events b op)))).
Proof.
  intros Hb Hfuel Hok op. unfold _finalize_realtime_text.
  unfold try_except, bind at 1, get. unfold bind at 1.
  rewrite edit_ok; auto.
  eapply sink_ok_from_le; [|exact Hok].
  unfold plan.
  destruct (str_eqb (text ++ lit " ") (last_typed_text (self w)));
    [simpl; lia|].
  destruct (startswith (text ++ lit " ") (last_typed_text (self w)));
    simpl; [lia|].
  rewrite truthy_app_r by reflexivity. lia.
Qed.

End PlannedEdits.

(** ** Finalization *)

Lemma Qltb_true_iff a b : Qltb a b = true <-> a < b.
Proof.
  unfold Qltb. rewrite Qlt_alt. destruct (a ?= b); split; congruence.
Qed.

Lemma Qltb_false_iff a b : Qltb a b = false <-> b <= a.
Proof.
  destruct (Qltb a b) eqn:E.
  - apply Qltb_true_iff in E. split; [discriminate | lra].
  - split; [intros _ | reflexivity].
    destruct (Qlt_le_dec a b) as [L|G]; [|exact G].
    apply Qltb_true_iff in L. congruence.
Qed.

(** The claim C3 read on every text fails on a blank one: a final text
    made of one space differs from the last finalized text (none yet), but
    [finalize_text] drops it and [last_finalized_text] does not become that
    text. *)
Lemma finalize_blank_text_counterexample :
  let config := config_with true (5 # 10) 512 in
  let text := lit " " in
  let w := world_with [] [] 0 in
  text <> last_finalized_text (self w)
  /\ forall fuel now,
       finalize_text config reliable fuel now text w = (Returned false, w)
       /\ last_finalized_text (self w) <> text.
Proof.
  cbv zeta. split; [discriminate|].
  intros fuel now. split; [reflexivity | discriminate].
Qed.

(** C3 (amended).  With real-time echo enabled and a final text that is
    not blank: a text equal to [last_finalized_text] is dropped, with no
    sink event and no change of state; any other text has the planned edit
    from the live text to [text + " "] sent to the sink, after which the
    live text is empty, [last_finalized_text] is the text and the
    suppression deadline is the clock value plus the window (the delete
    bound being positive and the sink not raising).  A second final event
    with the same text is then dropped, so the two events produce one edit
    sequence, which is empty only when the live text already was
    [text + " "]. *)
Theorem finalize_text_realtime (config : STTConfig) (sink_ok : nat -> bool)
    (fuel : nat) (now : Q) (text : str) (w : World) :
  realtime_typing (basic config) = true ->
  blank text = false ->
  (text = last_finalized_text (self w) ->
   finalize_text config sink_ok fuel now text w = (Returned false, w))
  /\ (text <> last_finalized_text (self w) ->
      (0 < max_backspaces_per_update (realtime config))%Z ->
      (length (last_typed_text (self w)) <= fuel)%nat ->
      sink_ok_from sink_ok (attempts (gui w))
        (length (last_typed_text (self w)) + 1) ->
      exists w',
        finalize_text config sink_ok fuel now text w = (Returned true, w')
        /\ emitted (gui w) (gui w')
           = sink_events
               (Z.to_nat (max_backspaces_per_update (realtime config)))
               (plan (last_typed_text (self w)) (text ++ lit " "))
        /\ self w' = finalized config now text
        /\ (forall sink_ok' fuel' now',
              finalize_text config sink_ok' fuel' now' text w'
              = (Returned false, w'))
        /\ (emitted (gui w) (gui w') = []
            <-> text ++ lit " " = last_typed_text (self w))).
Proof.
  intros Hecho Hblank. split.
  - intros E. unfold finalize_text. rewrite Hblank.
    unfold bind, get. rewrite <- E, str_eqb_refl. reflexivity.
  - intros Hne Hb Hfuel Hok.
    eexists. split; [|split; [|split; [|split]]].
    + unfold finalize_text. rewrite Hblank. unfold bind, get.
      destruct (str_eqb_spec text (last_finalized_text (self w)));
        [contradiction|].
      rewrite Hecho. apply _finalize_realtime_text_ok; assumption.
    + apply emitted_advance.
    + reflexivity.
    + intros sink_ok' fuel' now'. unfold finalize_text. rewrite Hblank.
      unfold bind, get. simpl. rewrite str_eqb_refl. reflexivity.
    + unfold world. cbn [gui]. rewrite emitted_advance.
      apply sink_events_nil_iff.
      intros E. apply app_eq_nil in E as [_ E]. discriminate.
Qed.

Lemma finalize_text_realtime_witness :
  let config := config_with true (5 # 10) 512 in
  let w := world_with (lit "Hello wor") [] 0 in
  exists w',
    finalize_text config reliable 9 3 (lit "Hello world") w
    = (Returned true, w')
    /\ emitted (gui w) (gui w') = [Typewrite (lit "ld ")]
    /\ self w' = finalized config 3 (lit "Hello world")
    /\ finalize_text config reliable 9 4 (lit "Hello world") w'
       = (Returned false, w').
Proof.
  intros config w.
  destruct (@finalize_text_realtime config reliable 9 3 (lit "Hello world") w)
    as [_ H]; [reflexivity | reflexivity |].
  destruct H as [w' [H1 [H2 [H3 [H4 _]]]]];
    [discriminate | reflexivity | simpl; lia | intros i _; reflexivity |].
  exists w'. split; [exact H1|]. split; [exact H2|]. split; [exact H3|].
  apply H4.
Defined.

(** When [finalize_text] answers true with echo enabled, it has set the
    manager to the finalized state. *)
Lemma finalize_text_true_inv config sink_ok fuel now text w w' :
  realtime_typing (basic config) = true ->
  finalize_text config sink_ok fuel now text w = (Returned true, w') ->
  self w' = finalized config now text.
Proof.
  intros Hecho. unfold finalize_text.
  destruct (blank text); [discriminate|].
  unfold bind at 1, get.
  destruct (str_eqb text (last_finalized_text (self w))); [discriminate|].
  rewrite Hecho. unfold _finalize_realtime_text, try_except.
  unfold bind at 1, get. unfold bind at 1.
  match goal with
  | |- context [(if ?c then ?a else ?b) w] =>
      destruct ((if c then a else b) w) as [[[]| |] w1]
  end; unfold bind, modify, ret; simpl; intros H;
    try discriminate.
  injection H as <-. reflexivity.
Qed.

(** ** The suppression window *)

(** C4.  A partial update read at a clock value before the suppression
    deadline is dropped: [process_realtime_update] answers false, no sink
    event is emitted and no field of the manager changes.  And with a
    window of zero, after a finalization at [t_final] with echo enabled, a
    partial update read at any clock value not before [t_final] passes the
    deadline test; a text that is neither blank nor redundant is then
    typed. *)
Theorem suppression_window (config : STTConfig) (sink_ok : nat -> bool)
    (fuel : nat) (now : Q) (text : str) (w : World) :
  (now < suppress_realtime_until (self w) ->
   process_realtime_update config sink_ok fuel now text w
   = (Returned false, w))
  /\ (finalize_suppress_window (realtime config) == 0 ->
      realtime_typing (basic config) = true ->
      forall fuel0 t_final final_text w0,
        finalize_text config sink_ok fuel0 t_final final_text w0
        = (Returned true, w) ->
        t_final <= now ->
        Qltb now (suppress_realtime_until (self w)) = false
        /\ (blank text = false ->
            _is_redundant_with_finalized (self w) text = false ->
            process_realtime_update config sink_ok fuel now text w
            = (_type_realtime_text config sink_ok fuel text ;; ret true) w)).
Proof.
  split.
  - intros H. apply Qltb_true_iff in H. unfold process_realtime_update.
    destruct (blank text); [reflexivity|].
    destruct (realtime_typing (basic config)); [|reflexivity].
    unfold bind, get; simpl. now rewrite H.
  - intros Hzero Hecho fuel0 t_final final_text w0 Hfin Hle.
    apply finalize_text_true_inv in Hfin; [|assumption].
    assert (G : Qltb now (suppress_realtime_until (self w)) = false).
    { rewrite Hfin. simpl. apply Qltb_false_iff. lra. }
    split; [exact G|].
    intros Hblank Hred. unfold process_realtime_update.
    rewrite Hblank, Hecho. cbn [negb].
    unfold bind at 1, get. now rewrite G, Hred.
Qed.

Lemma suppression_window_witness :
  let config := config_with true 0 512 in
  let w0 := world_with [] [] 0 in
  let w := world (finalized config 10 (lit "Hi there."))
                 (gui (advance w0 1 [Typewrite (lit "Hi there. ")])) in
  process_realtime_update (config_with true (5 # 10) 512) reliable 0
    (102 # 10) (lit "Next") (world_with [] (lit "Hi there.") (105 # 10))
  = (Returned false, world_with [] (lit "Hi there.") (105 # 10))
  /\ Qltb 10 (suppress_realtime_until (self w)) = false
  /\ process_realtime_update config reliable 0 10 (lit "Next") w
     = (_type_realtime_text config reliable 0 (lit "Next") ;; ret true) w.
Proof.
  intros config w0 w. split.
  - apply (@suppression_window (config_with true (5 # 10) 512) reliable 0
             (102 # 10) (lit "Next")
             (world_with [] (lit "Hi there.") (105 # 10))).
    reflexivity.
  - destruct (@suppression_window config reliable 0 10 (lit "Next") w)
      as [_ H].
    destruct (H ltac:(reflexivity) eq_refl 0%nat 10 (lit "Hi there.") w0)
      as [G P]; [reflexivity | discriminate |].
    split; [exact G|]. apply P; reflexivity.
Defined.

(** ** Blank input *)

(** C10.  On a text that is empty or made of whitespace only, both
    [process_realtime_update] and [finalize_text] answer false, emit no
    sink event and leave [last_typed_text], [last_finalized_text] and
    [suppress_realtime_until] as they were. *)
Theorem blank_text_ignored (config : STTConfig) (sink_ok : nat -> bool)
    (fuel : nat) (now : Q) (text : str) (w : World) :
  forallb isspace text = true ->
  process_realtime_update config sink_ok fuel now text w
  = (Returned false, w)
  /\ finalize_text config sink_ok fuel now text w = (Returned false, w).
Proof.
  intros H. rewrite <- blank_spec in H.
  unfold process_realtime_update, finalize_text. now rewrite H.
Qed.

Lemma blank_text_ignored_witness :
  let config := config_with true (5 # 10) 512 in
  let w := world_with (lit "Hello") (lit "Bye.") 0 in
  process_realtime_update config reliable 5 1 (lit "   ") w
  = (Returned false, w)
  /\ finalize_text config reliable 5 1 (lit "   ") w = (Returned false, w).
Proof.
  intros config w.
  apply (@blank_text_ignored config reliable 5 1 (lit "   ") w).
  reflexivity.
Defined.

(** ** Sink failures *)

Section SinkFailures.

Variable config : STTConfig.
Variable sink_ok : nat -> bool.

Lemma disciplined_ret {A : Type} (a : A) : disciplined sink_ok (ret a).
Proof.
  intros w r w' H. injection H as <- <-.
  repeat split; auto; intros; lia.
Qed.

Lemma disciplined_bind {A B : Type} (m : Eff World A)
    (k : A -> Eff World B) :
  disciplined sink_ok m -> (forall a, disciplined sink_ok (k a)) ->
  disciplined sink_ok (bind m k).
Proof.
  intros Hm Hk w r w'. unfold bind.
  destruct (m w) as [[a| |] w1] eqn:Em;
    destruct (Hm _ _ _ Em) as [S1 [L1 [B1 C1]]].
  - intros Ek. destruct (Hk a _ _ _ Ek) as [S2 [L2 [B2 C2]]].
    split; [congruence|]. split; [lia|]. split.
    + intros i Hi Hi'.
      destruct (Nat.lt_ge_cases i (attempts (gui w1))) as [Lt|Ge].
      * apply C1; [discriminate | lia].
      * apply B2; lia.
    + intros Hr i Hi.
      destruct (Nat.lt_ge_cases i (attempts (gui w1))) as [Lt|Ge].
      * apply C1; [discriminate | lia].
      * apply C2; [assumption | lia].
  - intros H. injection H as <- <-.
    split; [assumption|]. split; [assumption|]. split; [assumption|].
    congruence.
  - intros H. injection H as <- <-.
    split; [assumption|]. split; [assumption|]. split; [assumption|].
    intros _. apply C1. discriminate.
Qed.

Lemma disciplined_sink_call e : disciplined sink_ok (sink_call sink_ok e).
Proof.
  intros w r w'. unfold sink_call.
  destruct (sink_ok (attempts (gui w))) eqn:E;
    intros H; injection H as <- <-; simpl;
    (split; [reflexivity|]); (split; [lia|]); split;
    try (intros; lia).
  - intros _ k Hk. replace k with (attempts (gui w)) by lia. exact E.
  - congruence.
Qed.

Lemma disciplined_sleep : disciplined sink_ok sleep.
Proof.
  intros w r w' H. injection H as <- <-. simpl.
  repeat split; auto; intros; lia.
Qed.

Lemma disciplined_diverge {A : Type} : disciplined sink_ok (@diverge World A).
Proof.
  intros w r w' H. injection H as <- <-.
  repeat split; auto; intros; lia.
Qed.

Lemma disciplined_if {A : Type} (c : bool) (x y : Eff World A) :
  disciplined sink_ok x -> disciplined sink_ok y ->
  disciplined sink_ok (if c then x else y).
Proof. now destruct c. Qed.

Lemma disciplined_press_batch n : disciplined sink_ok (press_batch sink_ok n).
Proof.
  induction n as [|n IH]; simpl.
  - apply disciplined_ret.
  - apply disciplined_bind; [apply disciplined_sink_call | auto].
Qed.

Lemma disciplined_backspace_loop fuel b remaining :
  disciplined sink_ok (backspace_loop sink_ok fuel b remaining).
Proof.
  revert remaining. induction fuel as [|fuel IH]; intros remaining; simpl.
  - apply disciplined_if; [apply disciplined_diverge | apply disciplined_ret].
  - apply disciplined_if; [|apply disciplined_ret].
    apply disciplined_bind; [apply disciplined_press_batch|]. intros _.
    apply disciplined_bind; [|intros _; apply IH].
    apply disciplined_if; [apply disciplined_sleep | apply disciplined_ret].
Qed.

Lemma disciplined_replace fuel old_text new_text :
  disciplined sink_ok
    (_replace_typed_text config sink_ok fuel old_text new_text).
Proof.
  unfold _replace_typed_text. apply disciplined_bind.
  - apply disciplined_if;
      [apply disciplined_backspace_loop | apply disciplined_ret].
  - intros _. apply disciplined_if;
      [apply disciplined_sink_call | apply disciplined_ret].
Qed.

(** The append-or-replace part of both paths. *)
Lemma disciplined_edit fuel old new :
  disciplined sink_ok
    (if startswith new old
     then
       let suffix := slice_from (length old) new in
       if truthy suffix then typewrite sink_ok suffix else ret tt
     else _replace_typed_text config sink_ok fuel old new).
Proof.
  apply disciplined_if; [|apply disciplined_replace].
  apply disciplined_if; [apply disciplined_sink_call | apply disciplined_ret].
Qed.

(** No exception leaves [_type_realtime_text]; when a sink call raised
    in it, that call was the last one made and the live text is reset to
    the empty string. *)
Lemma _type_realtime_text_failure fuel text w r w' :
  _type_realtime_text config sink_ok fuel text w = (r, w') ->
  r <> Raised
  /\ (sink_raised sink_ok w w' ->
      r = Returned tt
      /\ last_typed_text (self w') = []
      /\ sink_ok (attempts (gui w') - 1) = false).
Proof.
  unfold _type_realtime_text.
  destruct (truthy text); simpl.
  2:{ intros H. injection H as <- <-. split; [discriminate|].
      intros [k [Hk _]]. lia. }
  unfold try_except, bind at 1, get.
  destruct (str_eqb text (last_typed_text (self w))).
  { intros H. injection H as <- <-. split; [discriminate|].
    intros [k [Hk _]]. lia. }
  unfold bind at 1.
  match goal with
  | |- context [(if ?c then ?a else ?b) w] =>
      pose proof (@disciplined_edit fuel (last_typed_text (self w)) text w)
        as D;
      destruct ((if c then a else b) w) as [[[]| |] w1]
  end; destruct (D _ _ eq_refl) as [S1 [L1 [B1 C1]]];
    unfold modify; intros H; injection H as <- <-; simpl;
    (split; [discriminate|]); intros [k [Hk Hf]]; simpl in Hk.
  - rewrite C1 in Hf; [discriminate | discriminate | exact Hk].
  - split; [reflexivity|]. split; [reflexivity|].
    destruct (sink_ok (attempts (gui w1) - 1)) eqn:E; [|reflexivity].
    rewrite <- Hf. symmetry.
    destruct (Nat.eq_dec k (attempts (gui w1) - 1)) as [->|N];
      [exact E | apply B1; lia].
  - rewrite C1 in Hf; [discriminate | discriminate | exact Hk].
Qed.

(** A sink call that raises does not leave [finalize_text] either; but
    the call then answers false and leaves the manager as it was:
    [last_typed_text] is kept, not reset. *)
Lemma finalize_text_failure fuel now text w r w' :
  finalize_text config sink_ok fuel now text w = (r, w') ->
  r <> Raised
  /\ (sink_raised sink_ok w w' -> r = Returned false /\ self w' = self w).
Proof.
  unfold finalize_text.
  destruct (blank text).
  { intros H. injection H as <- <-. split; [discriminate|].
    intros [k [Hk _]]. lia. }
  unfold bind at 1, get.
  destruct (str_eqb text (last_finalized_text (self w))).
  { intros H. injection H as <- <-. split; [discriminate|].
    intros [k [Hk _]]. lia. }
  destruct (realtime_typing (basic config)).
  - unfold _finalize_realtime_text, try_except, bind at 1, get.
    unfold bind at 1.
    match goal with
    | |- context [(if ?c then ?a else ?b) w] =>
        pose proof (@disciplined_edit fuel (last_typed_text (self w))
                      (text ++ lit " ") w) as D;
        destruct ((if c then a else b) w) as [[[]| |] w1]
    end; destruct (D _ _ eq_refl) as [S1 [L1 [B1 C1]]];
      unfold bind, modify, ret; intros H; injection H as <- <-; simpl;
      (split; [discriminate|]); intros [k [Hk Hf]].
    + simpl in Hk. rewrite C1 in Hf; [discriminate | discriminate | exact Hk].
    + split; [reflexivity | exact S1].
    + rewrite C1 in Hf; [discriminate | discriminate | exact Hk].
  - unfold _type_final_text_direct, try_except, bind at 1, typewrite.
    pose proof (@disciplined_sink_call (Typewrite (text ++ lit " ")) w) as D.
    destruct (sink_call sink_ok (Typewrite (text ++ lit " ")) w)
      as [[[]| |] w1];
      destruct (D _ _ eq_refl) as [S1 [L1 [B1 C1]]];
      unfold bind, modify, ret; intros H; injection H as <- <-; simpl;
      (split; [discriminate|]); intros [k [Hk Hf]].
    + simpl in Hk. rewrite C1 in Hf; [discriminate | discriminate | exact Hk].
    + split; [reflexivity | exact S1].
    + rewrite C1 in Hf; [discriminate | discriminate | exact Hk].
Qed.

Lemma process_realtime_update_never_raises fuel now text w :
  fst (process_realtime_update config sink_ok fuel now text w) <> Raised.
Proof.
  unfold process_realtime_update.
  destruct (blank text); [discriminate|].
  destruct (negb (realtime_typing (basic config))); [discriminate|].
  unfold bind at 1, get.
  destruct (Qltb now (suppress_realtime_until (self w))); [discriminate|].
  destruct (_is_redundant_with_finalized (self w) text); [discriminate|].
  unfold bind.
  destruct (_type_realtime_text config sink_ok fuel text w) as [r w1] eqn:E.
  apply _type_realtime_text_failure in E as [N _].
  destruct r; simpl; congruence.
Qed.

End SinkFailures.

(** C6.  The failing input: live text "Hello", final text "Bye", a sink
    whose third call raises.  [finalize_text] catches the exception and
    answers false after two backspaces, but keeps [last_typed_text] at
    "Hello", where the claim has it reset to the empty string; the
    real-time path, on the same state, text and sink, does reset it. *)
Theorem finalize_sink_failure_keeps_live_text :
  let config := config_with true (5 # 10) 512 in
  let w := world_with (lit "Hello") [] 0 in
  exists w',
    finalize_text config (raises_from 2) 5 1 (lit "Bye") w
    = (Returned false, w')
    /\ typed (gui w') = [PressBackspace; PressBackspace]
    /\ attempts (gui w') = 3%nat
    /\ last_typed_text (self w') = lit "Hello"
    /\ last_typed_text (self w') <> []
    /\ exists w'',
         _type_realtime_text config (raises_from 2) 5 (lit "Bye") w
         = (Returned tt, w'')
         /\ typed (gui w'') = [PressBackspace; PressBackspace]
         /\ last_typed_text (self w'') = [].
Proof.
  cbv zeta. eexists. split; [reflexivity|].
  repeat (split; [first [reflexivity | discriminate]|]).
  eexists. split; [reflexivity|]. split; reflexivity.
Qed.

(** ** Configuration values *)

(** The claim C7 fails on the code: a settings file giving
    [max_backspaces_per_update = 0] and [finalize_suppress_window = -1] is
    loaded without any error, the manager is built, and the configuration
    holds the two values as given. *)
Lemma invalid_configuration_counterexample :
  let kw := {| kw_processing_pause := None;
               kw_post_speech_silence_duration := None;
               kw_min_length_of_recording := None;
               kw_min_gap_between_recordings := None;
               kw_finalize_suppress_window := Some (-1 # 1);
               kw_max_backspaces_per_update := Some 0%Z;
               kw_realtime_unexpected := false |} in
  let file := FileJson {| d_basic := None;
                          d_wake_word_raises := false;
                          d_realtime := Some kw |} in
  exists c,
    RealtimeTypingManager_new file = Returned (c, RealtimeTypingManager_init)
    /\ max_backspaces_per_update (realtime c) = 0%Z
    /\ finalize_suppress_window (realtime c) = (-1 # 1).
Proof.
  cbv zeta. eexists. split; [reflexivity|]. split; reflexivity.
Qed.

Lemma load_settings_returns file c :
  exists c', load_settings file c = (Returned tt, c').
Proof.
  destruct file as [| |data]; simpl; unfold try_except, raise, ret;
    try (eexists; reflexivity).
  unfold bind, load_section.
  destruct (d_basic data) as [kb|];
    [destruct (BasicSettings_init kb)|];
    unfold modify, raise, ret;
    try (eexists; reflexivity);
    (destruct (d_wake_word_raises data); [eexists; reflexivity|]);
    (destruct (d_realtime data) as [kr|];
     [destruct (RealtimeSettings_init kr)|]);
    eexists; reflexivity.
Qed.

(** C7 (amended).  Session start never fails on the configuration: the
    loader has no check of [max_backspaces_per_update] or
    [finalize_suppress_window].  When the ['realtime'] section is reached
    and has no unknown key, the two values it gives are stored as given,
    whatever their sign (the default where it gives none); nothing is
    clamped and nothing is rejected. *)
Theorem settings_not_validated (file : SettingsFile) :
  (exists c,
     RealtimeTypingManager_new file = Returned (c, RealtimeTypingManager_init))
  /\ forall data kw,
       file = FileJson data ->
       d_realtime data = Some kw ->
       (forall kb, d_basic data = Some kb -> kw_basic_unexpected kb = false) ->
       d_wake_word_raises data = false ->
       kw_realtime_unexpected kw = false ->
       exists c,
         ConfigManager_init file = Returned c
         /\ max_backspaces_per_update (realtime c)
            = or_default (kw_max_backspaces_per_update kw) 512%Z
         /\ finalize_suppress_window (realtime c)
            = or_default (kw_finalize_suppress_window kw) (5 # 10).
Proof.
  split.
  - unfold RealtimeTypingManager_new, ConfigManager_init.
    destruct (load_settings_returns file STTConfig_default) as [c ->].
    now exists c.
  - intros data kw -> Hr Hb Hw Hk.
    unfold ConfigManager_init, load_settings, try_except, bind, load_section.
    rewrite Hr, Hw. unfold RealtimeSettings_init. rewrite Hk.
    destruct (d_basic data) as [kb|] eqn:Eb.
    + unfold BasicSettings_init. rewrite (Hb kb eq_refl).
      unfold modify, ret. simpl. eexists. split; [reflexivity|].
      split; reflexivity.
    + unfold modify, ret. simpl. eexists. split; [reflexivity|].
      split; reflexivity.
Qed.

Lemma settings_not_validated_witness :
  let kw := {| kw_processing_pause := None;
               kw_post_speech_silence_duration := None;
               kw_min_length_of_recording := None;
               kw_min_gap_between_recordings := None;
               kw_finalize_suppress_window := Some (-3 # 1);
               kw_max_backspaces_per_update := Some (-7)%Z;
               kw_realtime_unexpected := false |} in
  let file := FileJson {| d_basic := None;
                          d_wake_word_raises := false;
                          d_realtime := Some kw |} in
  exists c,
    ConfigManager_init file = Returned c
    /\ max_backspaces_per_update (realtime c) = (-7)%Z
    /\ finalize_suppress_window (realtime c) = (-3 # 1).
Proof.
  intros kw file.
  destruct (settings_not_validated file) as [_ H].
  apply (H _ kw eq_refl eq_refl);
    [intros kb E; discriminate E | reflexivity | reflexivity].
Defined.

(** What an accepted bound that is not positive does: the delete loop of
    [_replace_typed_text] never ends on a non-empty live text. *)
Lemma replace_diverges_without_positive_bound config sink_ok fuel old
    new w :
  (max_backspaces_per_update (realtime config) <= 0)%Z ->
  old <> [] ->
  fst (_replace_typed_text config sink_ok fuel old new w) = OutOfFuel.
Proof.
  intros Hb Hold. unfold _replace_typed_text, bind.
  assert (L : (0 < Z.of_nat (length old))%Z)
    by (destruct old; [congruence | simpl length; lia]).
  replace (Z.of_nat (length old) >? 0)%Z with true
    by (symmetry; apply Z.gtb_lt; exact L).
  pose proof (@backspace_loop_diverges sink_ok fuel
                (max_backspaces_per_update (realtime config))
                (Z.of_nat (length old)) w Hb L) as D.
  destruct (backspace_loop sink_ok fuel
              (max_backspaces_per_update (realtime config))
              (Z.of_nat (length old)) w) as [r w1].
  simpl in D. subst r. reflexivity.
Qed.


(** * Further properties *)

(** ** The normaliser *)

Lemma lower_lstrip_with P s :
  (forall c, P (lower_char c) = P c) ->
  lower (lstrip_with P s) = lstrip_with P (lower s).
Proof.
  intros HP. induction s as [|c s IH]; simpl; auto.
  rewrite HP. now destruct (P c).
Qed.

Lemma lower_strip s : lower (strip s) = strip (lower s).
Proof.
  unfold strip.
  rewrite lower_rstrip_with, lower_lstrip_with;
    auto using isspace_lower_char.
Qed.

Lemma rstrip_with_app_all P y suf :
  forallb P suf = true -> rstrip_with P (y ++ suf) = rstrip_with P y.
Proof.
  intros H. induction y as [|c y IH]; simpl.
  - now apply rstrip_with_all.
  - now rewrite IH.
Qed.

Lemma forallb_weaken (P Q : ascii -> bool) s :
  (forall c, Q c = true -> P c = true) ->
  forallb Q s = true -> forallb P s = true.
Proof.
  intros HPQ. rewrite !forallb_forall. auto.
Qed.

Lemma rstrip_with_absorb (P Q : ascii -> bool) x :
  (forall c, Q c = true -> P c = true) ->
  rstrip_with P (rstrip_with Q x) = rstrip_with P x.
Proof.
  intros HPQ. destruct (rstrip_with_prefix Q x) as [suf [E F]].
  rewrite E at 2. rewrite rstrip_with_app_all; auto.
  eapply forallb_weaken; eauto.
Qed.

Lemma rstrip_with_nil_iff P x :
  rstrip_with P x = [] <-> forallb P x = true.
Proof.
  split; [|apply rstrip_with_all].
  intros H. destruct (rstrip_with_prefix P x) as [suf [E F]].
  rewrite H in E. simpl in E. now subst.
Qed.

Lemma lstrip_with_app P s t :
  lstrip_with P (s ++ t)
  = if truthy (lstrip_with P s) then lstrip_with P s ++ t
    else lstrip_with P t.
Proof.
  induction s as [|c s IH]; simpl; [reflexivity|].
  destruct (P c); [exact IH | reflexivity].
Qed.

Lemma forallb_lower P s :
  (forall c, P (lower_char c) = P c) ->
  forallb P (lower s) = forallb P s.
Proof.
  intros HP. induction s as [|c s IH]; simpl; auto.
  now rewrite HP, IH.
Qed.

Lemma forallb_lstrip_with (P Q : ascii -> bool) s :
  forallb P s = true -> forallb P (lstrip_with Q s) = true.
Proof.
  intros H. destruct (lstrip_with_suffix Q s) as [pre [E _]].
  rewrite E, forallb_app in H. now apply andb_true_iff in H.
Qed.

(** [normalize] without its redundant step: trimming on the right is
    subsumed by the removal of the trailing class. *)
Lemma normalize_alt s :
  normalize s
  = collapse_ws false
      (rstrip_with trailing_class (lower (lstrip_with isspace s))).
Proof.
  unfold normalize, re_sub_spaces, re_sub_trailing, strip.
  rewrite lower_rstrip_with by apply isspace_lower_char.
  rewrite rstrip_with_absorb by apply isspace_trailing_class.
  reflexivity.
Qed.

Lemma collapse_ws_nil_iff s : collapse_ws false s = [] <-> s = [].
Proof.
  destruct s as [|c s]; simpl; [tauto|].
  destruct (isspace c); split; discriminate.
Qed.

Lemma single_spaced_collapse_ws b s :
  single_spaced b (collapse_ws b s) = true.
Proof.
  revert b. induction s as [|c s IH]; intros b; simpl; auto.
  destruct (isspace c) eqn:Hc.
  - destruct b; [apply IH|]. simpl. now rewrite IH.
  - simpl. rewrite Hc. apply IH.
Qed.

(** X1.  [normalize] does not see the case of letters: two strings with
    the same lower-case form have the same normal form. *)
Theorem normalize_case_insensitive (s t : str) :
  lower s = lower t -> normalize s = normalize t.
Proof.
  intros H. unfold normalize. now rewrite !lower_strip, H.
Qed.

Lemma normalize_case_insensitive_witness :
  normalize (lit "Hello World") = normalize (lit "hELLO wORLD").
Proof.
  apply normalize_case_insensitive. reflexivity.
Defined.

(** X2.  [normalize] does not see whitespace in front of a string, nor
    any run of ['.'], ['!'], ['?'] and whitespace behind it. *)
Theorem normalize_ignores_margins (front s back : str) :
  forallb isspace front = true ->
  forallb trailing_class back = true ->
  normalize (front ++ s ++ back) = normalize s.
Proof.
  intros Hf Hb. rewrite !normalize_alt. f_equal.
  rewrite (lstrip_with_app isspace front).
  rewrite (lstrip_with_all _ _ Hf). simpl truthy. cbv iota.
  rewrite lstrip_with_app.
  destruct (lstrip_with isspace s) as [|c y] eqn:E; simpl truthy; cbv iota.
  - simpl. apply rstrip_with_all.
    rewrite forallb_lower by apply trailing_class_lower_char.
    now apply forallb_lstrip_with.
  - unfold lower. rewrite map_app. apply rstrip_with_app_all.
    fold (lower back).
    now rewrite forallb_lower by apply trailing_class_lower_char.
Qed.

Lemma normalize_ignores_margins_witness :
  normalize (lit "  " ++ lit "The sky is blue" ++ lit ". !?")
  = normalize (lit "The sky is blue").
Proof.
  apply normalize_ignores_margins; reflexivity.
Defined.

(** X3.  The result of [normalize] is in lower case, does not begin with
    whitespace, does not end with ['.'], ['!'], ['?'] or whitespace, and
    its only whitespace is single spaces. *)
Theorem normalize_shape (s : str) :
  lower (normalize s) = normalize s
  /\ starts_outside isspace (normalize s)
  /\ ends_outside trailing_class (normalize s)
  /\ single_spaced false (normalize s) = true.
Proof.
  destruct (normalize_normal s) as [Hs He Hl _].
  repeat split; auto.
  unfold normalize, re_sub_spaces. apply single_spaced_collapse_ws.
Qed.

(** X4.  [normalize] gives the empty string exactly on the strings made
    of ['.'], ['!'], ['?'] and whitespace only. *)
Theorem normalize_empty_iff (s : str) :
  normalize s = [] <-> forallb trailing_class s = true.
Proof.
  rewrite normalize_alt, collapse_ws_nil_iff, rstrip_with_nil_iff.
  rewrite forallb_lower by apply trailing_class_lower_char.
  split; [|apply forallb_lstrip_with].
  intros H. destruct (lstrip_with_suffix isspace s) as [pre [E F]].
  rewrite E, forallb_app, H, andb_true_r.
  eapply forallb_weaken; [|exact F]. apply isspace_trailing_class.
Qed.

Lemma normalize_empty_iff_witness : normalize (lit " .!? ?") = [].
Proof.
  apply normalize_empty_iff. reflexivity.
Defined.

(** ** The surface *)

Lemma render_app a b buffer :
  render (a ++ b) buffer = render b (render a buffer).
Proof. unfold render. apply fold_left_app. Qed.

Lemma count_backspaces_cons e evs :
  count_backspaces (e :: evs)
  = ((match e with PressBackspace => 1 | _ => 0 end)
     + count_backspaces evs)%nat.
Proof. unfold count_backspaces. now destruct e. Qed.

(** Events without [Typewrite] cut the surface by their backspaces. *)
Lemma render_deletes evs buffer :
  (forall s, ~ In (Typewrite s) evs) ->
  render evs buffer = firstn (length buffer - count_backspaces evs) buffer.
Proof.
  revert buffer. induction evs as [|e evs IH]; intros buffer H.
  - simpl. rewrite Nat.sub_0_r. now rewrite firstn_all.
  - assert (H' : forall s, ~ In (Typewrite s) evs)
      by (intros s Hs; apply (H s); now right).
    rewrite count_backspaces_cons.
    destruct e as [s| |]; simpl.
    + exfalso. apply (H s). now left.
    + fold (render evs (removelast buffer)). rewrite IH by assumption.
      rewrite removelast_firstn_len, firstn_firstn, length_firstn.
      f_equal. lia.
    + fold (render evs buffer). now rewrite IH.
Qed.

Lemma firstn_app_keep (buffer old : str) k :
  (k <= length old)%nat ->
  firstn (length (buffer ++ old) - k) (buffer ++ old)
  = buffer ++ firstn (length old - k) old.
Proof.
  intros H. rewrite firstn_app, length_app.
  rewrite firstn_all2 by lia. f_equal. f_equal. lia.
Qed.

Lemma surface_after w w' evs :
  typed (gui w') = typed (gui w) ++ evs ->
  surface w' = render evs (surface w).
Proof. intros E. unfold surface. now rewrite E, render_app. Qed.

Lemma prefix_of_refl s : prefix_of s s.
Proof. exists []. now rewrite app_nil_r. Qed.

Lemma prefix_of_app s t : prefix_of s (s ++ t).
Proof. now exists t. Qed.

Lemma prefix_of_trans a b c : prefix_of a b -> prefix_of b c -> prefix_of a c.
Proof.
  intros [x ->] [y ->]. exists (x ++ y). now rewrite app_assoc.
Qed.

(** ** Computations that only delete *)

Section Deleting.

Variable config : STTConfig.
Variable sink_ok : nat -> bool.

Lemma deletes_only_ret {A : Type} (a : A) : deletes_only 0 (ret a).
Proof.
  intros w r w' H. injection H as <- <-. split; [reflexivity|].
  exists []. rewrite app_nil_r. repeat split; auto.
Qed.

Lemma deletes_only_sleep : deletes_only 0 sleep.
Proof.
  intros w r w' H. injection H as <- <-. split; [reflexivity|].
  exists [Sleep]. simpl. repeat split; auto.
  intros s [E|[]]. discriminate.
Qed.

Lemma deletes_only_diverge {A : Type} n : deletes_only n (@diverge World A).
Proof.
  intros w r w' H. injection H as <- <-. split; [reflexivity|].
  exists []. rewrite app_nil_r. repeat split; auto.
  - apply Nat.le_0_l.
  - intros [a E]. discriminate.
Qed.

Lemma deletes_only_press : deletes_only 1 (press_backspace sink_ok).
Proof.
  intros w r w'. unfold press_backspace, sink_call.
  destruct (sink_ok (attempts (gui w)));
    intros H; injection H as <- <-; simpl; (split; [reflexivity|]).
  - exists [PressBackspace]. repeat split; auto.
    intros s [E|[]]. discriminate.
  - exists []. rewrite app_nil_r. repeat split; auto.
    intros [a E]. discriminate.
Qed.

Lemma deletes_only_bind {A B : Type} n1 n2 (m : Eff World A)
    (k : A -> Eff World B) :
  deletes_only n1 m -> (forall a, deletes_only n2 (k a)) ->
  deletes_only (n1 + n2) (bind m k).
Proof.
  intros Hm Hk w r w'. unfold bind.
  destruct (m w) as [[a| |] w1] eqn:Em;
    destruct (Hm _ _ _ Em) as [S1 [evs1 [T1 [N1 [L1 R1]]]]].
  - intros Ek. destruct (Hk a _ _ _ Ek) as [S2 [evs2 [T2 [N2 [L2 R2]]]]].
    split; [congruence|]. exists (evs1 ++ evs2).
    rewrite count_backspaces_app, R1 by eauto.
    split; [now rewrite T2, T1, app_assoc|]. split.
    + intros s Hs. apply in_app_or in Hs as [Hs|Hs];
        [now apply (N1 s) | now apply (N2 s)].
    + split; [lia|]. intros Hr. rewrite R2 by assumption. reflexivity.
  - intros H. injection H as <- <-. split; [assumption|].
    exists evs1. repeat split; auto; [lia|].
    intros [a E]. discriminate.
  - intros H. injection H as <- <-. split; [assumption|].
    exists evs1. repeat split; auto; [lia|].
    intros [a E]. discriminate.
Qed.

Lemma deletes_only_eq {A : Type} n n' (X : Eff World A) :
  n = n' -> deletes_only n X -> deletes_only n' X.
Proof. now intros ->. Qed.

Lemma deletes_only_press_batch n : deletes_only n (press_batch sink_ok n).
Proof.
  induction n as [|n IH]; simpl.
  - apply deletes_only_ret.
  - apply (@deletes_only_bind unit unit 1 n);
      [apply deletes_only_press | auto].
Qed.

(** A bound that is not positive: the loop presses nothing and runs out
    of fuel. *)
Lemma backspace_loop_idle fuel b remaining w r w' :
  (b <= 0)%Z -> (0 < remaining)%Z ->
  backspace_loop sink_ok fuel b remaining w = (r, w') ->
  r = OutOfFuel
  /\ self w' = self w
  /\ exists evs,
       typed (gui w') = typed (gui w) ++ evs
       /\ (forall s, ~ In (Typewrite s) evs)
       /\ count_backspaces evs = 0%nat.
Proof.
  intros Hb. revert remaining w.
  induction fuel as [|fuel IH]; intros remaining w Hr.
  - rewrite backspace_loop_stuck by assumption.
    intros H. injection H as <- <-. repeat split.
    exists []. rewrite app_nil_r. repeat split; auto.
  - rewrite backspace_loop_S by assumption.
    replace (Z.to_nat (Z.min remaining b)) with 0%nat by lia.
    unfold bind at 1. simpl press_batch. unfold ret at 1.
    replace (remaining - Z.min remaining b >? 0)%Z with true
      by (symmetry; apply Z.gtb_lt; lia).
    unfold bind at 1. rewrite sleep_ok. intros H.
    apply IH in H as [-> [S1 [evs [T [N C]]]]]; [|lia].
    repeat split; auto.
    exists (Sleep :: evs). simpl in T. rewrite T, <- app_assoc.
    repeat split; auto.
    intros s [E|Hs]; [discriminate | now apply (N s)].
Qed.

Lemma deletes_only_backspace_loop fuel b remaining :
  deletes_only (Z.to_nat remaining)
    (backspace_loop sink_ok fuel b remaining).
Proof.
  destruct (Z.le_gt_cases b 0) as [Hb|Hb].
  - destruct (Z.le_gt_cases remaining 0) as [Hr|Hr].
    + replace (backspace_loop sink_ok fuel b remaining)
        with (@ret World unit tt).
      * replace (Z.to_nat remaining) with 0%nat by lia.
        apply deletes_only_ret.
      * destruct fuel; simpl;
          destruct (Z.gtb_spec remaining 0); auto; lia.
    + intros w r w' H.
      apply backspace_loop_idle in H as [-> [S1 [evs [T [N C]]]]];
        [|assumption|lia].
      split; [assumption|]. exists evs. repeat split; auto; [lia|].
      intros [a E]. discriminate.
  - revert remaining. induction fuel as [|fuel IH]; intros remaining.
    + simpl. destruct (Z.gtb_spec remaining 0).
      * apply deletes_only_diverge.
      * replace (Z.to_nat remaining) with 0%nat by lia.
        apply deletes_only_ret.
    + destruct (Z.le_gt_cases remaining 0) as [Hr|Hr].
      * simpl. destruct (Z.gtb_spec remaining 0); [lia|].
        replace (Z.to_nat remaining) with 0%nat by lia.
        apply deletes_only_ret.
      * rewrite backspace_loop_S by lia.
        apply (@deletes_only_eq unit
                 (Z.to_nat (Z.min remaining b)
                  + (0 + Z.to_nat (remaining - Z.min remaining b))));
          [lia|].
        apply deletes_only_bind; [apply deletes_only_press_batch|].
        intros _. apply deletes_only_bind; [|intros _; apply IH].
        destruct (remaining - Z.min remaining b >? 0)%Z;
          [apply deletes_only_sleep | apply deletes_only_ret].
Qed.

End Deleting.

Lemma render_deletes_keep evs (buffer old : str) :
  (forall s, ~ In (Typewrite s) evs) ->
  (count_backspaces evs <= length old)%nat ->
  render evs (buffer ++ old)
  = buffer ++ firstn (length old - count_backspaces evs) old.
Proof.
  intros N L. rewrite render_deletes by assumption.
  now apply firstn_app_keep.
Qed.

Lemma render_deletes_all evs (buffer old : str) :
  (forall s, ~ In (Typewrite s) evs) ->
  count_backspaces evs = length old ->
  render evs (buffer ++ old) = buffer.
Proof.
  intros N E. rewrite render_deletes_keep by (auto; lia).
  rewrite E, Nat.sub_diag. simpl. apply app_nil_r.
Qed.

(** The events of a planned operation turn the old text into the new. *)
Lemma render_plan b (old new buffer : str) :
  (0 < b)%nat ->
  render (sink_events b (plan old new)) (buffer ++ old) = buffer ++ new.
Proof.
  intros Hb. unfold plan.
  destruct (str_eqb_spec new old) as [->|Hne]; [reflexivity|].
  destruct (startswith new old) eqn:S; simpl sink_events.
  - simpl. rewrite <- app_assoc. now rewrite <- (startswith_slice _ _ S).
  - rewrite render_app.
    rewrite render_deletes_all.
    + destruct new; simpl; [now rewrite app_nil_r | reflexivity].
    + intros s. apply batches_no_typewrite.
    + rewrite count_backspaces_batches. apply batch_sizes_sum; lia.
Qed.

Section Editing.

Variable config : STTConfig.
Variable sink_ok : nat -> bool.

Lemma edits_replace fuel old new :
  edits old new (_replace_typed_text config sink_ok fuel old new).
Proof.
  assert (HL : deletes_only (length old)
                 (if (Z.of_nat (length old) >? 0)%Z
                  then backspace_loop sink_ok fuel
                         (max_backspaces_per_update (realtime config))
                         (Z.of_nat (length old))
                  else ret tt)).
  { destruct (Z.gtb_spec (Z.of_nat (length old)) 0).
    - eapply deletes_only_eq; [|apply deletes_only_backspace_loop]. lia.
    - eapply deletes_only_eq; [|apply deletes_only_ret]. lia. }
  intros w r w'. unfold _replace_typed_text, bind.
  match goal with
  | |- context [(if ?c then ?a else ?b) w] =>
      destruct ((if c then a else b) w) as [[[]| |] w1] eqn:EL
  end; destruct (HL _ _ _ EL) as [S1 [evs1 [T1 [N1 [L1 R1]]]]].
  - specialize (R1 (ex_intro _ tt eq_refl)).
    destruct new as [|c new'].
    + cbv beta. change (truthy []) with false. cbv iota. unfold ret.
      intros H. injection H as <- <-. split; [assumption|].
      exists evs1. split; [assumption|]. split.
      * intros _ buffer. rewrite app_nil_r. now apply render_deletes_all.
      * intros H. exfalso. now apply (H tt).
    + cbv beta. change (truthy (c :: new')) with true. cbv iota.
      unfold typewrite, sink_call.
      destruct (sink_ok (attempts (gui w1)));
        intros H; injection H as <- <-; simpl; (split; [assumption|]).
      * exists (evs1 ++ [Typewrite (c :: new')]).
        split; [now rewrite T1, app_assoc|]. split.
        -- intros _ buffer. rewrite render_app.
           now rewrite render_deletes_all.
        -- intros H. exfalso. now apply (H tt).
      * exists evs1. split; [assumption|]. split.
        -- intros [a E]. discriminate.
        -- intros _. exists (length old). split; [lia|].
           intros buffer. rewrite render_deletes_all by assumption.
           rewrite Nat.sub_diag. simpl. now rewrite app_nil_r.
  - intros H. injection H as <- <-. split; [assumption|].
    exists evs1. split; [assumption|]. split.
    + intros [a E]. discriminate.
    + intros _. exists (count_backspaces evs1). split; [assumption|].
      intros buffer. now apply render_deletes_keep.
  - intros H. injection H as <- <-. split; [assumption|].
    exists evs1. split; [assumption|]. split.
    + intros [a E]. discriminate.
    + intros _. exists (count_backspaces evs1). split; [assumption|].
      intros buffer. now apply render_deletes_keep.
Qed.

(** The append-or-replace part of both paths edits [old] into [new]. *)
Lemma edits_edit fuel old new :
  edits old new
    (if startswith new old
     then
       let suffix := slice_from (length old) new in
       if truthy suffix then typewrite sink_ok suffix else ret tt
     else _replace_typed_text config sink_ok fuel old new).
Proof.
  destruct (startswith new old) eqn:S; [|apply edits_replace].
  pose proof (startswith_slice _ _ S) as E. cbv zeta.
  intros w r w'.
  destruct (slice_from (length old) new) as [|c suffix] eqn:Hs.
  - change (truthy []) with false. cbv iota. unfold ret.
    intros H. injection H as <- <-. split; [reflexivity|].
    exists []. rewrite app_nil_r. split; [reflexivity|]. split.
    + intros _ buffer. rewrite app_nil_r in E. now rewrite E.
    + intros H. exfalso. now apply (H tt).
  - change (truthy (c :: suffix)) with true. cbv iota.
    unfold typewrite, sink_call.
    destruct (sink_ok (attempts (gui w)));
      intros H; injection H as <- <-; simpl; (split; [reflexivity|]).
    + exists [Typewrite (c :: suffix)]. split; [reflexivity|]. split.
      * intros _ buffer. rewrite E. simpl. now rewrite app_assoc.
      * intros H. exfalso. now apply (H tt).
    + exists []. rewrite app_nil_r. split; [reflexivity|]. split.
      * intros [a Ea]. discriminate.
      * intros _. exists 0%nat. split; [lia|].
        intros buffer. simpl. now rewrite Nat.sub_0_r, firstn_all.
Qed.

End Editing.

(** ** The manager and the surface *)

Lemma surface_set_last_typed_text v w :
  surface (set_last_typed_text v w) = surface w.
Proof. reflexivity. Qed.

Lemma surface_advance w n evs :
  surface (advance w n evs) = render evs (surface w).
Proof. apply surface_after. reflexivity. Qed.

Lemma synced_prefix committed w : synced committed w -> prefix_of committed (surface w).
Proof. intros ->. apply prefix_of_app. Qed.

Section Surface.

Variable config : STTConfig.
Variable sink_ok : nat -> bool.

Hypothesis bound_positive :
  (0 < max_backspaces_per_update (realtime config))%Z.
Hypothesis sink_reliable : forall k, sink_ok k = true.

Lemma reliable_from a n : sink_ok_from sink_ok a n.
Proof. intros i _. apply sink_reliable. Qed.

Lemma _type_realtime_text_sync fuel text committed w :
  synced committed w ->
  (length (last_typed_text (self w)) <= fuel)%nat ->
  truthy text = true ->
  exists w',
    _type_realtime_text config sink_ok fuel text w = (Returned tt, w')
    /\ synced committed w'
    /\ last_typed_text (self w') = text.
Proof.
  intros Hs Hfuel Ht. unfold _type_realtime_text. rewrite Ht.
  cbv [negb]. unfold try_except, bind at 1, get.
  destruct (str_eqb_spec text (last_typed_text (self w))) as [E|N].
  - exists w. repeat split; auto.
  - unfold bind at 1.
    rewrite edit_ok by (auto using reliable_from).
    unfold modify. eexists. split; [reflexivity|]. split; [|reflexivity].
    unfold synced.
    rewrite surface_set_last_typed_text, surface_advance, Hs.
    simpl last_typed_text. apply render_plan. lia.
Qed.

Lemma process_realtime_update_sync fuel now text committed w :
  synced committed w ->
  (length (last_typed_text (self w)) <= fuel)%nat ->
  exists b w',
    process_realtime_update config sink_ok fuel now text w
    = (Returned b, w')
    /\ synced committed w'
    /\ (if b then last_typed_text (self w') = text else w' = w).
Proof.
  intros Hs Hfuel. unfold process_realtime_update.
  destruct (blank text) eqn:Hb; [now exists false, w|].
  destruct (negb (realtime_typing (basic config))); [now exists false, w|].
  unfold bind at 1, get.
  destruct (Qltb now (suppress_realtime_until (self w)));
    [now exists false, w|].
  destruct (_is_redundant_with_finalized (self w) text);
    [now exists false, w|].
  destruct (@_type_realtime_text_sync fuel text committed w)
    as [w' [E [S T]]]; auto using blank_false_truthy.
  exists true, w'. unfold bind. rewrite E. auto.
Qed.

Lemma finalize_text_accepts fuel now text committed w :
  synced committed w ->
  realtime_typing (basic config) = true ->
  (length (last_typed_text (self w)) <= fuel)%nat ->
  blank text = false ->
  text <> last_finalized_text (self w) ->
  exists w',
    finalize_text config sink_ok fuel now text w = (Returned true, w')
    /\ self w' = finalized config now text
    /\ surface w' = committed ++ text ++ lit " ".
Proof.
  intros Hs Hecho Hfuel Hb Hne. unfold finalize_text. rewrite Hb.
  unfold bind at 1, get.
  destruct (str_eqb_spec text (last_finalized_text (self w)));
    [contradiction|].
  rewrite Hecho.
  rewrite _finalize_realtime_text_ok by (auto using reliable_from).
  eexists. split; [reflexivity|]. split; [reflexivity|].
  unfold world, surface. cbn [gui].
  change (render (typed (gui (advance w ?n ?evs))) [])
    with (surface (advance w n evs)).
  rewrite surface_advance, Hs. apply render_plan. lia.
Qed.

Lemma handle_sync fuel e committed w :
  realtime_typing (basic config) = true ->
  synced committed w ->
  (length (last_typed_text (self w)) <= fuel)%nat ->
  match e with Partial _ text => (length text <= fuel)%nat | _ => True end ->
  exists w' committed',
    handle config sink_ok fuel e w = (Returned tt, w')
    /\ synced committed' w'
    /\ prefix_of committed committed'
    /\ (length (last_typed_text (self w')) <= fuel)%nat.
Proof.
  intros Hecho Hs Hfuel He. destruct e as [now text|now text|]; simpl.
  - destruct (@process_realtime_update_sync fuel now text committed w)
      as [b [w' [E [S T]]]]; auto.
    exists w', committed. unfold bind. rewrite E.
    split; [reflexivity|]. split; [assumption|].
    split; [apply prefix_of_refl|].
    destruct b; [now rewrite T | now subst].
  - destruct (blank text) eqn:Hb.
    { exists w, committed. unfold finalize_text, bind. rewrite Hb.
      repeat split; auto using prefix_of_refl. }
    destruct (str_eqb_spec text (last_finalized_text (self w))) as [E|N].
    { exists w, committed. unfold finalize_text, bind at 1. rewrite Hb.
      unfold bind, get. rewrite <- E, str_eqb_refl.
      repeat split; auto using prefix_of_refl. }
    destruct (@finalize_text_accepts fuel now text committed w)
      as [w' [E [S T]]]; auto.
    exists w', (committed ++ text ++ lit " "). unfold bind. rewrite E.
    split; [reflexivity|]. split.
    + unfold synced. rewrite T, S. simpl. now rewrite app_nil_r.
    + split; [apply prefix_of_app|]. rewrite S. simpl. lia.
  - exists (set_suppress_realtime_until 0
              (set_last_finalized_text [] (set_last_typed_text [] w))),
           (committed ++ last_typed_text (self w)).
    split; [reflexivity|]. split.
    + unfold synced. simpl last_typed_text. rewrite app_nil_r. exact Hs.
    + split; [apply prefix_of_app | simpl; lia].
Qed.

Lemma run_events_sync fuel events committed w :
  realtime_typing (basic config) = true ->
  synced committed w ->
  (length (last_typed_text (self w)) <= fuel)%nat ->
  partials_within fuel events ->
  exists w' committed',
    run_events config sink_ok fuel events w = (Returned tt, w')
    /\ synced committed' w'
    /\ prefix_of committed committed'.
Proof.
  intros Hecho. revert committed w.
  induction events as [|e events IH]; intros committed w Hs Hfuel Hp.
  - exists w, committed. repeat split; auto using prefix_of_refl.
  - inversion Hp as [|e' events' He Hp']; subst.
    destruct (@handle_sync fuel e committed w)
      as [w1 [c1 [E1 [S1 [P1 L1]]]]]; auto.
    destruct (IH c1 w1) as [w' [c' [E' [S' P']]]]; auto.
    exists w', c'. simpl. unfold bind. rewrite E1.
    split; [exact E'|]. split; [assumption|].
    eapply prefix_of_trans; eauto.
Qed.

End Surface.

(** X6.  With a positive delete bound and a sink that does not raise, a
    partial update keeps the manager and the surface in agreement: if the
    surface showed the committed text followed by [last_typed_text] before
    the call, it does so after it, with the same committed text, whether
    the update was dropped, appended or replaced; an accepted update leaves
    the new text as live text. *)
Theorem realtime_update_keeps_sync (config : STTConfig)
    (sink_ok : nat -> bool) (fuel : nat) (now : Q) (text committed : str)
    (w : World) :
  (0 < max_backspaces_per_update (realtime config))%Z ->
  (forall k, sink_ok k = true) ->
  synced committed w ->
  (length (last_typed_text (self w)) <= fuel)%nat ->
  exists b w',
    process_realtime_update config sink_ok fuel now text w
    = (Returned b, w')
    /\ synced committed w'
    /\ (if b then last_typed_text (self w') = text else w' = w).
Proof.
  intros Hb Hok Hs Hfuel. now apply process_realtime_update_sync.
Qed.

Lemma realtime_update_keeps_sync_witness :
  let w := world {| last_typed_text := lit "Hello";
                    last_finalized_text := lit "Hi.";
                    suppress_realtime_until := 0 |}
                 {| attempts := 2;
                    typed := [Typewrite (lit "Hi. "); Typewrite (lit "Hello")] |} in
  exists b w',
    process_realtime_update (config_with true (5 # 10) 2) reliable 5 1
      (lit "Help me") w
    = (Returned b, w')
    /\ synced (lit "Hi. ") w'
    /\ (if b then last_typed_text (self w') = lit "Help me" else w' = w).
Proof.
  intros w.
  apply (@realtime_update_keeps_sync (config_with true (5 # 10) 2) reliable
           5 1 (lit "Help me") (lit "Hi. ") w);
    [reflexivity | intros k; reflexivity | reflexivity | simpl; lia].
Defined.

(** X7.  With echo enabled, a positive delete bound and a sink that does
    not raise, an accepted final text (not blank, not the last finalized
    one) is committed: the surface then shows the committed text followed
    by the final text and one space, whatever the live text was, and the
    live text of the manager is empty. *)
Theorem finalize_commits_text (config : STTConfig) (sink_ok : nat -> bool)
    (fuel : nat) (now : Q) (text committed : str) (w : World) :
  (0 < max_backspaces_per_update (realtime config))%Z ->
  (forall k, sink_ok k = true) ->
  realtime_typing (basic config) = true ->
  synced committed w ->
  (length (last_typed_text (self w)) <= fuel)%nat ->
  blank text = false ->
  text <> last_finalized_text (self w) ->
  exists w',
    finalize_text config sink_ok fuel now text w = (Returned true, w')
    /\ surface w' = committed ++ text ++ lit " "
    /\ last_typed_text (self w') = []
    /\ synced (committed ++ text ++ lit " ") w'.
Proof.
  intros Hb Hok Hecho Hs Hfuel Hblank Hne.
  destruct (@finalize_text_accepts config sink_ok Hb Hok fuel now text
              committed w) as [w' [E [S T]]]; auto.
  exists w'. split; [exact E|]. split; [exact T|].
  rewrite S. split; [reflexivity|].
  unfold synced. rewrite T, S. simpl. now rewrite app_nil_r.
Qed.

Lemma finalize_commits_text_witness :
  let w := world {| last_typed_text := lit "Helo wor";
                    last_finalized_text := lit "Hi.";
                    suppress_realtime_until := 0 |}
                 {| attempts := 2;
                    typed := [Typewrite (lit "Hi. ");
                              Typewrite (lit "Helo wor")] |} in
  exists w',
    finalize_text (config_with true (5 # 10) 3) reliable 8 1
      (lit "Hello world.") w
    = (Returned true, w')
    /\ surface w' = lit "Hi. " ++ lit "Hello world." ++ lit " "
    /\ last_typed_text (self w') = []
    /\ synced (lit "Hi. " ++ lit "Hello world." ++ lit " ") w'.
Proof.
  intros w.
  apply (@finalize_commits_text (config_with true (5 # 10) 3) reliable
           8 1 (lit "Hello world.") (lit "Hi. ") w);
    [reflexivity | intros k; reflexivity | reflexivity | reflexivity
     | simpl; lia | reflexivity | discriminate].
Defined.

(** X8.  Over a whole session (any sequence of partial events, final
    events and stops, with echo enabled, a positive delete bound and a sink
    that does not raise) every call returns, the manager and the surface
    stay in agreement, and the committed text only grows: what was
    committed before the session is still at the front of the surface
    after it. *)
Theorem session_keeps_committed_text (config : STTConfig)
    (sink_ok : nat -> bool) (fuel : nat) (events : list TranscriptEvent)
    (committed : str) (w : World) :
  (0 < max_backspaces_per_update (realtime config))%Z ->
  (forall k, sink_ok k = true) ->
  realtime_typing (basic config) = true ->
  synced committed w ->
  (length (last_typed_text (self w)) <= fuel)%nat ->
  partials_within fuel events ->
  exists w' committed',
    run_events config sink_ok fuel events w = (Returned tt, w')
    /\ synced committed' w'
    /\ prefix_of committed committed'
    /\ prefix_of committed (surface w').
Proof.
  intros Hb Hok Hecho Hs Hfuel Hp.
  destruct (@run_events_sync config sink_ok Hb Hok fuel events committed w)
    as [w' [c' [E [S P]]]]; auto.
  exists w', c'. repeat split; auto.
  eapply prefix_of_trans; [exact P|]. now apply synced_prefix.
Qed.

Lemma session_keeps_committed_text_witness :
  let events := [Partial 1 (lit "Hel"); Partial 2 (lit "Hello");
                 Partial 3 (lit "Help"); Final 4 (lit "Help.");
                 Partial (41 # 10) (lit "Help"); Stop;
                 Partial 9 (lit "Next")] in
  exists w' committed',
    run_events (config_with true (5 # 10) 2) reliable 5 events
      (world_with [] [] 0)
    = (Returned tt, w')
    /\ synced committed' w'
    /\ prefix_of [] committed'
    /\ prefix_of [] (surface w').
Proof.
  intros events.
  apply (@session_keeps_committed_text (config_with true (5 # 10) 2)
           reliable 5 events [] (world_with [] [] 0));
    [reflexivity | intros k; reflexivity | reflexivity | reflexivity
     | simpl; lia |].
  repeat constructor; simpl; lia.
Defined.

(** ** Any sink *)

Section AnySink.

Variable config : STTConfig.
Variable sink_ok : nat -> bool.

Lemma _type_realtime_text_resilient fuel text committed w r w' :
  synced committed w ->
  _type_realtime_text config sink_ok fuel text w = (r, w') ->
  prefix_of committed (surface w')
  /\ (forall a, r = Returned a ->
      (last_typed_text (self w') = text
       \/ last_typed_text (self w') = last_typed_text (self w)
       \/ last_typed_text (self w') = [])
      /\ exists committed',
           synced committed' w' /\ prefix_of committed committed').
Proof.
  intros Hs. unfold _type_realtime_text.
  destruct (truthy text); cbv [negb].
  2:{ intros H. injection H as <- <-.
      split; [now apply synced_prefix|]. intros a _. split; [auto|].
      exists committed. auto using prefix_of_refl. }
  unfold try_except, bind at 1, get.
  destruct (str_eqb text (last_typed_text (self w))).
  { intros H. injection H as <- <-.
    split; [now apply synced_prefix|]. intros a _. split; [auto|].
    exists committed. auto using prefix_of_refl. }
  unfold bind at 1.
  match goal with
  | |- context [(if ?c then ?a else ?b) w] =>
      pose proof (@edits_edit config sink_ok fuel
                    (last_typed_text (self w)) text w) as D;
      destruct ((if c then a else b) w) as [[[]| |] w1]
  end; destruct (D _ _ eq_refl) as [S1 [evs [T [R NR]]]];
    unfold modify; intros H; injection H as <- <-;
    rewrite ?surface_set_last_typed_text, (@surface_after _ _ _ T), Hs.
  - rewrite R by eauto. split; [apply prefix_of_app|].
    intros a _. split; [simpl; auto|].
    exists committed. split; [|apply prefix_of_refl].
    unfold synced.
    rewrite surface_set_last_typed_text, (@surface_after _ _ _ T), Hs.
    now rewrite R by eauto.
  - destruct NR as [k [Hk Hr]]; [discriminate|].
    rewrite Hr. split; [apply prefix_of_app|].
    intros a _. split; [simpl; auto|].
    exists (committed ++ firstn (length (last_typed_text (self w)) - k)
                           (last_typed_text (self w))).
    split; [|apply prefix_of_app].
    unfold synced.
    rewrite surface_set_last_typed_text, (@surface_after _ _ _ T), Hs, Hr.
    simpl. now rewrite app_nil_r.
  - destruct NR as [k [Hk Hr]]; [discriminate|].
    rewrite Hr. split; [apply prefix_of_app|].
    intros a E. discriminate.
Qed.

Lemma finalize_text_safe fuel now text committed w r w' :
  synced committed w ->
  finalize_text config sink_ok fuel now text w = (r, w') ->
  prefix_of committed (surface w')
  /\ (r = Returned false -> self w' = self w)
  /\ (r = Returned true ->
      last_finalized_text (self w') = text
      /\ blank text = false
      /\ text <> last_finalized_text (self w)
      /\ (realtime_typing (basic config) = true ->
          self w' = finalized config now text
          /\ surface w' = committed ++ text ++ lit " ")).
Proof.
  intros Hs. unfold finalize_text.
  destruct (blank text) eqn:Hb.
  { intros H. injection H as <- <-.
    split; [now apply synced_prefix|]. split; [auto | discriminate]. }
  unfold bind at 1, get.
  destruct (str_eqb_spec text (last_finalized_text (self w))) as [E|N].
  { intros H. injection H as <- <-.
    split; [now apply synced_prefix|]. split; [auto | discriminate]. }
  destruct (realtime_typing (basic config)).
  - unfold _finalize_realtime_text, try_except, bind at 1, get.
    unfold bind at 1.
    match goal with
    | |- context [(if ?c then ?a else ?b) w] =>
        pose proof (@edits_edit config sink_ok fuel
                      (last_typed_text (self w)) (text ++ lit " ") w) as D;
        destruct ((if c then a else b) w) as [[[]| |] w1]
    end; destruct (D _ _ eq_refl) as [S1 [evs [T [R NR]]]];
      unfold bind, modify, ret; intros H; injection H as <- <-.
    + assert (Sf : surface
                     (set_suppress_realtime_until
                        (now + finalize_suppress_window (realtime config))
                        (set_last_finalized_text text
                           (set_last_typed_text [] w1)))
                   = committed ++ text ++ lit " ").
      { change (surface w1 = committed ++ text ++ lit " ").
        rewrite (@surface_after _ _ _ T), Hs. apply R. eauto. }
      rewrite Sf. split; [apply prefix_of_app|].
      split; [discriminate|]. intros _. repeat split; auto.
    + destruct NR as [k [Hk Hr]]; [discriminate|].
      rewrite (@surface_after _ _ _ T), Hs, Hr.
      split; [apply prefix_of_app|]. split; [auto | discriminate].
    + destruct NR as [k [Hk Hr]]; [discriminate|].
      rewrite (@surface_after _ _ _ T), Hs, Hr.
      split; [apply prefix_of_app|]. split; discriminate.
  - unfold _type_final_text_direct, try_except, bind at 1, typewrite,
      sink_call.
    destruct (sink_ok (attempts (gui w)));
      unfold bind, modify, ret; intros H; injection H as <- <-.
    + split.
      * unfold surface. simpl. rewrite render_app.
        fold (surface w). rewrite Hs. simpl.
        exists (last_typed_text (self w) ++ text ++ lit " ").
        now rewrite <- app_assoc.
      * split; [discriminate|]. intros _.
        split; [reflexivity|]. split; [reflexivity|].
        split; [assumption|]. intros Hf. discriminate Hf.
    + split; [now apply synced_prefix|]. split; [auto | discriminate].
Qed.

End AnySink.

Section Outcomes.

Variable config : STTConfig.
Variable sink_ok : nat -> bool.

Lemma _type_realtime_text_live fuel text w a w' :
  truthy text = true ->
  _type_realtime_text config sink_ok fuel text w = (Returned a, w') ->
  last_typed_text (self w') = text \/ last_typed_text (self w') = [].
Proof.
  intros Ht. unfold _type_realtime_text. rewrite Ht. cbv [negb].
  unfold try_except, bind at 1, get.
  destruct (str_eqb_spec text (last_typed_text (self w))) as [E|N].
  { intros H. injection H as <- <-. now left. }
  unfold bind at 1.
  match goal with
  | |- context [(if ?c then ?a else ?b) w] =>
      destruct ((if c then a else b) w) as [[[]| |] w1]
  end; unfold modify; intros H; try discriminate;
    injection H as <- <-; simpl; auto.
Qed.

Lemma process_realtime_update_outcome fuel now text w r w' :
  process_realtime_update config sink_ok fuel now text w = (r, w') ->
  r <> Raised
  /\ (r = Returned false -> w' = w)
  /\ (r = Returned true ->
      blank text = false
      /\ realtime_typing (basic config) = true
      /\ suppress_realtime_until (self w) <= now
      /\ _is_redundant_with_finalized (self w) text = false
      /\ (last_typed_text (self w') = text
          \/ last_typed_text (self w') = [])).
Proof.
  intros H.
  split.
  { pose proof (process_realtime_update_never_raises config sink_ok fuel
                  now text w) as N.
    rewrite H in N. exact N. }
  revert H. unfold process_realtime_update.
  destruct (blank text) eqn:Hb.
  { intros H. injection H as <- <-. split; [auto | discriminate]. }
  destruct (realtime_typing (basic config)); cbv [negb].
  2:{ intros H. injection H as <- <-. split; [auto | discriminate]. }
  unfold bind at 1, get.
  destruct (Qltb now (suppress_realtime_until (self w))) eqn:Hq.
  { intros H. injection H as <- <-. split; [auto | discriminate]. }
  destruct (_is_redundant_with_finalized (self w) text) eqn:Hr.
  { intros H. injection H as <- <-. split; [auto | discriminate]. }
  unfold bind.
  destruct (_type_realtime_text config sink_ok fuel text w)
    as [[[]| |] w1] eqn:E;
    unfold ret; intros H; injection H as <- <-;
    (split; [discriminate|]); try discriminate.
  intros _. apply Qltb_false_iff in Hq.
  repeat split; auto.
  eapply _type_realtime_text_live; eauto using blank_false_truthy.
Qed.

Lemma process_realtime_update_resilient fuel now text committed w r w' :
  synced committed w ->
  process_realtime_update config sink_ok fuel now text w = (r, w') ->
  prefix_of committed (surface w')
  /\ (forall b, r = Returned b ->
      exists committed', synced committed' w' /\ prefix_of committed committed').
Proof.
  intros Hs. unfold process_realtime_update.
  assert (Keep : prefix_of committed (surface w)
                 /\ (forall b : bool, Returned false = Returned b ->
                     exists committed',
                       synced committed' w /\ prefix_of committed committed')).
  { split; [now apply synced_prefix|]. intros b _.
    exists committed. auto using prefix_of_refl. }
  destruct (blank text); [intros H; injection H as <- <-; exact Keep|].
  destruct (negb (realtime_typing (basic config)));
    [intros H; injection H as <- <-; exact Keep|].
  unfold bind at 1, get.
  destruct (Qltb now (suppress_realtime_until (self w)));
    [intros H; injection H as <- <-; exact Keep|].
  destruct (_is_redundant_with_finalized (self w) text);
    [intros H; injection H as <- <-; exact Keep|].
  unfold bind.
  destruct (_type_realtime_text config sink_ok fuel text w)
    as [r1 w1] eqn:E.
  destruct (@_type_realtime_text_resilient config sink_ok fuel text
              committed w r1 w1 Hs E) as [P R].
  destruct r1 as [[]| |]; unfold ret; intros H; injection H as <- <-;
    (split; [exact P|]); intros b Eb; try discriminate.
  destruct (R tt eq_refl) as [_ C]. exact C.
Qed.

Lemma finalize_text_outcome fuel now text w r w' :
  finalize_text config sink_ok fuel now text w = (r, w') ->
  r <> Raised
  /\ (r = Returned false -> self w' = self w)
  /\ (r = Returned true ->
      last_finalized_text (self w') = text
      /\ blank text = false
      /\ text <> last_finalized_text (self w)
      /\ (realtime_typing (basic config) = true ->
          self w' = finalized config now text)).
Proof.
  intros H. split.
  { now apply finalize_text_failure in H as [N _]. }
  revert H. unfold finalize_text.
  destruct (blank text) eqn:Hb.
  { intros H. injection H as <- <-. split; [auto | discriminate]. }
  unfold bind at 1, get.
  destruct (str_eqb_spec text (last_finalized_text (self w))) as [E|N].
  { intros H. injection H as <- <-. split; [auto | discriminate]. }
  destruct (realtime_typing (basic config)).
  - unfold _finalize_realtime_text, try_except, bind at 1, get.
    unfold bind at 1.
    match goal with
    | |- context [(if ?c then ?a else ?b) w] =>
        pose proof (@edits_edit config sink_ok fuel
                      (last_typed_text (self w)) (text ++ lit " ") w) as D;
        destruct ((if c then a else b) w) as [[[]| |] w1]
    end; destruct (D _ _ eq_refl) as [S1 _];
      unfold bind, modify, ret; intros H; injection H as <- <-;
      (split; [try discriminate; auto|]); try discriminate.
    intros _. repeat split; auto.
  - unfold _type_final_text_direct, try_except, bind at 1, typewrite,
      sink_call.
    destruct (sink_ok (attempts (gui w)));
      unfold bind, modify, ret; intros H; injection H as <- <-;
      (split; [try discriminate; auto|]); try discriminate.
    intros _. split; [reflexivity|]. split; [reflexivity|].
    split; [assumption|]. intros Hf. discriminate Hf.
Qed.

Lemma redundant_update_dropped fuel now text w :
  _is_redundant_with_finalized (self w) text = true ->
  process_realtime_update config sink_ok fuel now text w
  = (Returned false, w).
Proof.
  intros R. unfold process_realtime_update.
  destruct (blank text); [reflexivity|].
  destruct (negb (realtime_typing (basic config))); [reflexivity|].
  unfold bind, get.
  destruct (Qltb now (suppress_realtime_until (self w))); [reflexivity|].
  now rewrite R.
Qed.

End Outcomes.

(** X9.  Whatever the sink does (any call may raise), whatever the fuel
    and the delete bound, one call of [process_realtime_update] or of
    [finalize_text] on a world in agreement never deletes committed text:
    the committed text is still at the front of the surface after the
    call. *)
Theorem committed_text_is_never_deleted (config : STTConfig)
    (sink_ok : nat -> bool) (fuel : nat) (now : Q) (text committed : str)
    (w : World) :
  synced committed w ->
  (forall r w',
     process_realtime_update config sink_ok fuel now text w = (r, w') ->
     prefix_of committed (surface w'))
  /\ (forall r w',
        finalize_text config sink_ok fuel now text w = (r, w') ->
        prefix_of committed (surface w')).
Proof.
  intros Hs. split; intros r w' H.
  - now apply (process_realtime_update_resilient _ _ _ _ _ Hs) in H as [P _].
  - now apply (finalize_text_safe _ _ _ _ _ Hs) in H as [P _].
Qed.

Lemma committed_text_is_never_deleted_witness :
  let w := world {| last_typed_text := lit "Hello";
                    last_finalized_text := lit "Hi.";
                    suppress_realtime_until := 0 |}
                 {| attempts := 2;
                    typed := [Typewrite (lit "Hi. ");
                              Typewrite (lit "Hello")] |} in
  let config := config_with true (5 # 10) 2 in
  prefix_of (lit "Hi. ")
    (surface (snd (process_realtime_update config (raises_from 5) 5 1
                     (lit "Bye") w)))
  /\ prefix_of (lit "Hi. ")
       (surface (snd (finalize_text config (raises_from 5) 5 1
                        (lit "Bye") w))).
Proof.
  intros w config.
  destruct (@committed_text_is_never_deleted config (raises_from 5) 5 1
              (lit "Bye") (lit "Hi. ") w) as [P F]; [reflexivity|].
  split.
  - apply (P (fst (process_realtime_update config (raises_from 5) 5 1
                     (lit "Bye") w))).
    reflexivity.
  - apply (F (fst (finalize_text config (raises_from 5) 5 1
                     (lit "Bye") w))).
    reflexivity.
Defined.

(** X10.  [process_realtime_update] heals itself: whatever the sink does,
    when the call returns on a world in agreement, the manager and the
    surface agree again, for a committed text that extends the previous
    one (what a failed edit left of the live text counts as committed). *)
Theorem realtime_update_restores_sync (config : STTConfig)
    (sink_ok : nat -> bool) (fuel : nat) (now : Q) (text committed : str)
    (w : World) (b : bool) (w' : World) :
  synced committed w ->
  process_realtime_update config sink_ok fuel now text w
  = (Returned b, w') ->
  exists committed',
    synced committed' w' /\ prefix_of committed committed'.
Proof.
  intros Hs H.
  apply (process_realtime_update_resilient _ _ _ _ _ Hs) in H as [_ R].
  now apply (R b).
Qed.

Lemma realtime_update_restores_sync_witness :
  let w := world {| last_typed_text := lit "Hello";
                    last_finalized_text := lit "Hi.";
                    suppress_realtime_until := 0 |}
                 {| attempts := 2;
                    typed := [Typewrite (lit "Hi. ");
                              Typewrite (lit "Hello")] |} in
  let w' := snd (process_realtime_update (config_with true (5 # 10) 2)
                   (raises_from 5) 5 1 (lit "Bye") w) in
  exists committed',
    synced committed' w' /\ prefix_of (lit "Hi. ") committed'.
Proof.
  intros w w'.
  apply (@realtime_update_restores_sync (config_with true (5 # 10) 2)
           (raises_from 5) 5 1 (lit "Bye") (lit "Hi. ") w true w');
    reflexivity.
Defined.

(** X11.  What the answer of [process_realtime_update] means.  No
    exception leaves the call.  False means ignored: nothing was sent to
    the sink and no field changed.  True means the text was not blank, echo
    is enabled, the suppression deadline has passed and the text is not
    redundant; the live text is then the new text, or empty when the sink
    raised, so true does not promise that the text was typed. *)
Theorem process_realtime_update_answer (config : STTConfig)
    (sink_ok : nat -> bool) (fuel : nat) (now : Q) (text : str)
    (w : World) (r : Outcome bool) (w' : World) :
  process_realtime_update config sink_ok fuel now text w = (r, w') ->
  r <> Raised
  /\ (r = Returned false -> w' = w)
  /\ (r = Returned true ->
      blank text = false
      /\ realtime_typing (basic config) = true
      /\ suppress_realtime_until (self w) <= now
      /\ _is_redundant_with_finalized (self w) text = false
      /\ (last_typed_text (self w') = text
          \/ last_typed_text (self w') = [])).
Proof. apply process_realtime_update_outcome. Qed.

Lemma process_realtime_update_answer_witness :
  let w := world_with (lit "Hello") (lit "Hi.") 0 in
  let run := process_realtime_update (config_with true (5 # 10) 2)
               (raises_from 1) 5 1 (lit "Bye") w in
  fst run = Returned true
  /\ (last_typed_text (self (snd run)) = lit "Bye"
      \/ last_typed_text (self (snd run)) = []).
Proof.
  intros w run.
  destruct (@process_realtime_update_answer (config_with true (5 # 10) 2)
              (raises_from 1) 5 1 (lit "Bye") w (fst run) (snd run)
              eq_refl) as [_ [_ T]].
  split; [reflexivity|]. apply T. reflexivity.
Defined.

(** X12.  What [finalize_text] answers.  A blank text, and a text equal
    to [last_finalized_text], are answered false with the world unchanged,
    with echo enabled or not.  The answer true means that the text was
    neither blank nor the last finalized one and is now
    [last_finalized_text]; with echo enabled the live text is then empty
    and the suppression deadline is the clock value plus the window. *)
Theorem finalize_text_answer (config : STTConfig) (sink_ok : nat -> bool)
    (fuel : nat) (now : Q) (text : str) (w : World) (r : Outcome bool)
    (w' : World) :
  finalize_text config sink_ok fuel now text w = (r, w') ->
  (blank text = true \/ text = last_finalized_text (self w) ->
   r = Returned false /\ w' = w)
  /\ (r = Returned true ->
      last_finalized_text (self w') = text
      /\ blank text = false
      /\ text <> last_finalized_text (self w)
      /\ (realtime_typing (basic config) = true ->
          self w' = finalized config now text)).
Proof.
  intros H. split.
  - revert H. unfold finalize_text.
    destruct (blank text) eqn:Hb.
    { intros H _. injection H as <- <-. auto. }
    intros H [Hf | E]; [discriminate|]. revert H.
    unfold bind, get. rewrite <- E, str_eqb_refl.
    intros H. injection H as <- <-. auto.
  - now apply finalize_text_outcome in H as [_ [_ T]].
Qed.

Lemma finalize_text_answer_witness :
  let config := config_with true (5 # 10) 2 in
  let w := world_with (lit "Hello") (lit "Hi.") 0 in
  let accepted := finalize_text config reliable 5 1 (lit "Bye") w in
  let repeated := finalize_text config reliable 5 2 (lit "Hi.") w in
  self (snd accepted) = finalized config 1 (lit "Bye")
  /\ fst repeated = Returned false /\ snd repeated = w.
Proof.
  intros config w accepted repeated. split.
  - destruct (@finalize_text_answer config reliable 5 1 (lit "Bye") w
                (fst accepted) (snd accepted) eq_refl) as [_ T].
    apply T; reflexivity.
  - destruct (@finalize_text_answer config reliable 5 2 (lit "Hi.") w
                (fst repeated) (snd repeated) eq_refl) as [D _].
    apply D. right. reflexivity.
Defined.

(** X5.  A sentence that was just finalized is not typed again by a late
    partial update: once [finalize_text] has accepted a text whose normal
    form is not empty, a partial update with the same normal form (the same
    words in any case, with any trailing punctuation) is dropped at every
    clock value, inside the suppression window or after it. *)
Theorem finalized_sentence_is_not_retyped (config : STTConfig)
    (sink_ok : nat -> bool) (fuel0 : nat) (t_final : Q) (final_text : str)
    (w0 w : World) (candidate : str) :
  finalize_text config sink_ok fuel0 t_final final_text w0
  = (Returned true, w) ->
  normalize final_text <> [] ->
  normalize candidate = normalize final_text ->
  forall sink_ok' fuel now,
    process_realtime_update config sink_ok' fuel now candidate w
    = (Returned false, w).
Proof.
  intros H Hn Hc sink_ok' fuel now.
  apply finalize_text_outcome in H as [_ [_ T]].
  destruct (T eq_refl) as [Hf _].
  apply redundant_update_dropped.
  unfold _is_redundant_with_finalized. rewrite Hf, Hc.
  assert (Ht : truthy final_text = true).
  { apply truthy_true. intros ->. now apply Hn. }
  apply truthy_true in Hn. rewrite Ht, Hn, startswith_refl. reflexivity.
Qed.

Lemma finalized_sentence_is_not_retyped_witness :
  let config := config_with true (5 # 10) 512 in
  let w := snd (finalize_text config reliable 0 10 (lit "The sky is blue.")
                  (world_with [] [] 0)) in
  process_realtime_update config reliable 0 99 (lit "the SKY is blue") w
  = (Returned false, w).
Proof.
  intros config w.
  apply (@finalized_sentence_is_not_retyped config reliable 0 10
           (lit "The sky is blue.") (world_with [] [] 0) w
           (lit "the SKY is blue"));
    [reflexivity | discriminate | reflexivity].
Defined.

(** ** A delete bound that is not positive *)

(** X13.  With [max_backspaces_per_update <= 0] a partial update that has
    to replace a non-empty live text never returns: the delete loop makes
    no progress, so the call runs out of any amount of fuel; it presses no
    backspace and types nothing meanwhile. *)
Theorem realtime_update_hangs_without_positive_bound (config : STTConfig)
    (sink_ok : nat -> bool) (now : Q) (text : str) (w : World) :
  (max_backspaces_per_update (realtime config) <= 0)%Z ->
  realtime_typing (basic config) = true ->
  blank text = false ->
  suppress_realtime_until (self w) <= now ->
  _is_redundant_with_finalized (self w) text = false ->
  startswith text (last_typed_text (self w)) = false ->
  forall fuel,
    fst (process_realtime_update config sink_ok fuel now text w) = OutOfFuel
    /\ self (snd (process_realtime_update config sink_ok fuel now text w))
       = self w
    /\ surface (snd (process_realtime_update config sink_ok fuel now text w))
       = surface w.
Proof.
  intros Hb Hecho Hblank Hq Hred Hdiff fuel.
  apply Qltb_false_iff in Hq.
  assert (H : exists w1,
             process_realtime_update config sink_ok fuel now text w
             = (OutOfFuel, w1)
             /\ self w1 = self w /\ surface w1 = surface w);
    [|destruct H as [w1 [-> [S1 S2]]]; simpl; auto].
  unfold process_realtime_update. rewrite Hblank, Hecho. cbv [negb].
  unfold bind at 1, get. rewrite Hq, Hred.
  unfold bind, _type_realtime_text.
  rewrite (blank_false_truthy _ Hblank). cbv [negb].
  unfold try_except, bind at 1, get.
  destruct (str_eqb_spec text (last_typed_text (self w))) as [E|_].
  { rewrite E, startswith_refl in Hdiff. discriminate. }
  rewrite Hdiff. unfold bind, _replace_typed_text, bind.
  assert (Hold : (0 < Z.of_nat (length (last_typed_text (self w))))%Z).
  { destruct (last_typed_text (self w)); [discriminate | simpl length; lia]. }
  replace (Z.of_nat (length (last_typed_text (self w))) >? 0)%Z with true
    by (symmetry; apply Z.gtb_lt; exact Hold).
  destruct (backspace_loop sink_ok fuel
              (max_backspaces_per_update (realtime config))
              (Z.of_nat (length (last_typed_text (self w)))) w)
    as [r w1] eqn:E.
  apply backspace_loop_idle in E as [-> [S1 [evs [T [N C]]]]]; auto.
  exists w1. split; [reflexivity|]. split; [assumption|].
  rewrite (@surface_after _ _ _ T), render_deletes by assumption.
  rewrite C, Nat.sub_0_r. apply firstn_all.
Qed.

Lemma realtime_update_hangs_without_positive_bound_witness :
  let config := config_with true (5 # 10) 0 in
  let w := world_with (lit "Hello") [] 0 in
  fst (process_realtime_update config reliable 1000 1 (lit "Bye") w)
  = OutOfFuel
  /\ self (snd (process_realtime_update config reliable 1000 1 (lit "Bye") w))
     = self w
  /\ surface
       (snd (process_realtime_update config reliable 1000 1 (lit "Bye") w))
     = surface w.
Proof.
  intros config w.
  apply (@realtime_update_hangs_without_positive_bound config reliable 1
           (lit "Bye") w);
    [simpl; lia | reflexivity | reflexivity | discriminate
     | reflexivity | reflexivity].
Defined.

(** ** A new start *)

(** X18.  After [reset_state], whatever the manager held, the next
    partial update starts from nothing: with echo enabled, a text that is
    not blank, read at a clock value that is not negative, is typed in
    full by one sink call without any backspace; neither the redundancy
    test nor the suppression window of the session before applies. *)
Theorem first_update_after_reset (config : STTConfig)
    (sink_ok : nat -> bool) (fuel : nat) (now : Q) (text : str) (w : World) :
  realtime_typing (basic config) = true ->
  blank text = false ->
  0 <= now ->
  sink_ok (attempts (gui w)) = true ->
  (reset_state ;; process_realtime_update config sink_ok fuel now text) w
  = (Returned true,
     world {| last_typed_text := text;
              last_finalized_text := [];
              suppress_realtime_until := 0 |}
           (gui (advance w 1 [Typewrite text]))).
Proof.
  intros Hecho Hblank Hnow Hok.
  unfold bind at 1.
  change (reset_state w)
    with (@Returned unit tt, world RealtimeTypingManager_init (gui w)).
  cbv iota beta.
  unfold process_realtime_update. rewrite Hblank, Hecho. cbv [negb].
  unfold bind at 1, get.
  change (suppress_realtime_until
            (self (world RealtimeTypingManager_init (gui w)))) with 0.
  apply Qltb_false_iff in Hnow. rewrite Hnow.
  change (_is_redundant_with_finalized
            (self (world RealtimeTypingManager_init (gui w))) text)
    with false.
  cbv iota.
  unfold bind, _type_realtime_text.
  pose proof (blank_false_truthy _ Hblank) as Ht. rewrite Ht. cbv [negb].
  unfold try_except, bind at 1, get.
  change (last_typed_text (self (world RealtimeTypingManager_init (gui w))))
    with (@nil ascii).
  destruct text as [|c text]; [discriminate|].
  change (str_eqb (c :: text) []) with false.
  change (startswith (c :: text) []) with true.
  cbv iota. unfold bind.
  change (slice_from (length (@nil ascii)) (c :: text)) with (c :: text).
  cbv zeta. change (truthy (c :: text)) with true. cbv iota.
  unfold typewrite. rewrite sink_call_ok by exact Hok.
  reflexivity.
Qed.

Lemma first_update_after_reset_witness :
  let w := world {| last_typed_text := lit "Hello";
                    last_finalized_text := lit "Hello";
                    suppress_realtime_until := 50 |}
                 {| attempts := 1; typed := [Typewrite (lit "Hello")] |} in
  (reset_state ;;
   process_realtime_update (config_with true (5 # 10) 512) reliable 0 1
     (lit "Hello")) w
  = (Returned true,
     world {| last_typed_text := lit "Hello";
              last_finalized_text := [];
              suppress_realtime_until := 0 |}
           (gui (advance w 1 [Typewrite (lit "Hello")]))).
Proof.
  intros w.
  apply (@first_update_after_reset (config_with true (5 # 10) 512) reliable
           0 1 (lit "Hello") w);
    [reflexivity | reflexivity | discriminate | reflexivity].
Defined.

(** ** Loading the settings *)



(** ** The front end *)

Lemma lstrip_with_idem P s :
  lstrip_with P (lstrip_with P s) = lstrip_with P s.
Proof. apply lstrip_with_fix, lstrip_with_outside. Qed.

Section FrontEndFacts.

Variable upper1 : ascii -> str.

Lemma preprocess_leading_whitespace ws text :
  forallb isspace ws = true ->
  preprocess_realtime_text upper1 (ws ++ text)
  = preprocess_realtime_text upper1 text.
Proof.
  intros H. unfold preprocess_realtime_text.
  destruct text as [|c text].
  - rewrite app_nil_r. destruct ws as [|d ws]; [reflexivity|].
    simpl truthy. cbv [negb]. rewrite (lstrip_with_all _ _ H).
    reflexivity.
  - rewrite truthy_app_r by reflexivity. simpl truthy at 1. cbv [negb].
    rewrite lstrip_with_app, (lstrip_with_all _ _ H). reflexivity.
Qed.

Lemma preprocess_ellipsis_only ws :
  forallb isspace ws = true ->
  preprocess_realtime_text upper1 (lit "..." ++ ws) = [].
Proof.
  intros H. unfold preprocess_realtime_text. simpl.
  now rewrite (lstrip_with_all _ _ H).
Qed.

Lemma preprocess_nil_iff text :
  (forall c, isspace c = false -> upper1 c <> []) ->
  (preprocess_realtime_text upper1 text = []
   <-> exists a b,
         forallb isspace a = true /\ forallb isspace b = true
         /\ (text = a \/ text = a ++ lit "..." ++ b)).
Proof.
  intros Hup. split.
  - unfold preprocess_realtime_text.
    destruct (truthy text) eqn:Ht; cbv [negb].
    2:{ intros ->. exists [], []. auto. }
    destruct (lstrip_with_suffix isspace text) as [pre [E F]].
    assert (Dead : forall t : str,
               match lstrip_with isspace t with
               | [] => lstrip_with isspace t
               | c :: rest => upper1 c ++ rest
               end = [] -> lstrip_with isspace t = []).
    { intros t. pose proof (lstrip_with_outside isspace t) as O.
      destruct (lstrip_with isspace t) as [|c rest]; [reflexivity|].
      simpl in O. intros H. apply app_eq_nil in H as [H _].
      now apply Hup in H. }
    destruct (startswith (lstrip_with isspace text) (lit "...")) eqn:S.
    + apply startswith_spec in S as [t2 S]. rewrite S.
      change (slice_from 3 (lit "..." ++ t2)) with t2.
      intros H. apply Dead, lstrip_with_nil_all in H.
      exists pre, t2. repeat split; auto. right. now rewrite <- S.
    + intros H. apply Dead in H. rewrite lstrip_with_idem in H.
      exists pre, []. repeat split; auto. left.
      rewrite H, app_nil_r in E. exact E.
  - intros [a [b [Ha [Hb [-> | ->]]]]].
    + rewrite <- (app_nil_r a). now rewrite preprocess_leading_whitespace.
    + rewrite preprocess_leading_whitespace by assumption.
      now apply preprocess_ellipsis_only.
Qed.

Lemma preprocess_starts_outside text :
  (forall c, isspace c = false -> starts_outside isspace (upper1 c)) ->
  (forall c, isspace c = false -> upper1 c <> []) ->
  starts_outside isspace (preprocess_realtime_text upper1 text).
Proof.
  intros Hs Hn. unfold preprocess_realtime_text.
  destruct text as [|c0 text0]; [exact I|].
  simpl truthy. cbv [negb].
  match goal with
  | |- context [lstrip_with isspace (if ?c then ?a else ?b)] =>
      generalize (if c then a else b)
  end.
  intros t. pose proof (lstrip_with_outside isspace t) as O.
  destruct (lstrip_with isspace t) as [|c rest]; [exact I|].
  simpl in O. specialize (Hs c O). specialize (Hn c O).
  destruct (upper1 c); [congruence | exact Hs].
Qed.

End FrontEndFacts.

(** X16.  [_on_realtime_update] ignores a partial text when the front
    end is not recording, and when the text holds nothing to type:
    whitespace only, or whitespace around one leading ellipsis.  Nothing is
    sent to the sink and the manager does not change, whatever the
    configuration, the clock and the sink. *)
Theorem on_realtime_update_ignores (config : STTConfig)
    (sink_ok : nat -> bool) (upper1 : ascii -> str) (fuel : nat) (now : Q)
    (text : str) (w : World) :
  _on_realtime_update config sink_ok upper1 false fuel now text w
  = (Returned tt, w)
  /\ (forall a b,
        forallb isspace a = true -> forallb isspace b = true ->
        text = a \/ text = a ++ lit "..." ++ b ->
        forall is_recording,
          _on_realtime_update config sink_ok upper1 is_recording fuel now
            text w
          = (Returned tt, w)).
Proof.
  split; [reflexivity|].
  intros a b Ha Hb Ht [|]; [|reflexivity].
  unfold _on_realtime_update. cbv [negb]. cbv zeta.
  assert (E : preprocess_realtime_text upper1 text = []).
  { destruct Ht as [-> | ->].
    - rewrite <- (app_nil_r a). now rewrite preprocess_leading_whitespace.
    - rewrite preprocess_leading_whitespace by assumption.
      now apply preprocess_ellipsis_only. }
  rewrite E. reflexivity.
Qed.

Lemma on_realtime_update_ignores_witness :
  let w := world_with (lit "Hello") [] 0 in
  _on_realtime_update (config_with true (5 # 10) 512) reliable upper_ascii
    true 5 1 (lit "  ...  ") w
  = (Returned tt, w).
Proof.
  intros w.
  destruct (@on_realtime_update_ignores (config_with true (5 # 10) 512)
              reliable upper_ascii 5 1 (lit "  ...  ") w) as [_ H].
  apply (H (lit "  ") (lit "  ")); [reflexivity | reflexivity |].
  right. reflexivity.
Defined.

(** X17.  [preprocess_realtime_text], for an upper-casing that maps a
    character that is not whitespace to a non-empty string not starting
    with whitespace: the result never starts with whitespace; whitespace in
    front of the text does not change it; and it is empty exactly when the
    text is whitespace only, or whitespace around one leading ellipsis. *)
Theorem preprocess_realtime_text_result (upper1 : ascii -> str)
    (ws text : str) :
  (forall c, isspace c = false ->
     upper1 c <> [] /\ starts_outside isspace (upper1 c)) ->
  forallb isspace ws = true ->
  starts_outside isspace (preprocess_realtime_text upper1 text)
  /\ preprocess_realtime_text upper1 (ws ++ text)
     = preprocess_realtime_text upper1 text
  /\ (preprocess_realtime_text upper1 text = []
      <-> exists a b,
            forallb isspace a = true /\ forallb isspace b = true
            /\ (text = a \/ text = a ++ lit "..." ++ b)).
Proof.
  intros Hup Hws. split; [|split].
  - apply preprocess_starts_outside; intros c Hc; now apply Hup.
  - now apply preprocess_leading_whitespace.
  - apply preprocess_nil_iff. intros c Hc. now apply Hup.
Qed.

Lemma upper_ascii_outside c :
  isspace c = false ->
  upper_ascii c <> [] /\ starts_outside isspace (upper_ascii c).
Proof.
  destruct c as [[] [] [] [] [] [] [] []]; vm_compute;
    intros H; split; congruence.
Qed.

Lemma preprocess_realtime_text_result_witness :
  starts_outside isspace
    (preprocess_realtime_text upper_ascii (lit " ... hello"))
  /\ preprocess_realtime_text upper_ascii (lit "  " ++ lit "... hello")
     = preprocess_realtime_text upper_ascii (lit "... hello")
  /\ preprocess_realtime_text upper_ascii (lit "... hello") = lit "Hello".
Proof.
  destruct (@preprocess_realtime_text_result upper_ascii (lit "  ")
              (lit "... hello") upper_ascii_outside eq_refl)
    as [_ [H2 _]].
  destruct (@preprocess_realtime_text_result upper_ascii (lit "  ")
              (lit " ... hello") upper_ascii_outside eq_refl)
    as [H1 _].
  split; [exact H1|]. split; [exact H2 | reflexivity].
Defined.

(** ** Repeated and growing hypotheses *)

Lemma _type_realtime_text_append config sink_ok fuel old suffix w :
  suffix <> [] ->
  last_typed_text (self w) = old ->
  sink_ok (attempts (gui w)) = true ->
  _type_realtime_text config sink_ok fuel (old ++ suffix) w
  = (Returned tt,
     set_last_typed_text (old ++ suffix) (advance w 1 [Typewrite suffix])).
Proof.
  intros Hsuf Hold Hok. unfold _type_realtime_text.
  rewrite truthy_app_r by now apply truthy_true.
  cbv [negb]. unfold try_except, bind at 1, get.
  rewrite Hold, str_eqb_app_false by assumption.
  unfold bind. rewrite startswith_app, slice_from_app.
  apply truthy_true in Hsuf. rewrite Hsuf.
  unfold typewrite. rewrite sink_call_ok by assumption.
  reflexivity.
Qed.

(** X19.  Repeating the live text is a no-op: when the text of a partial
    update equals [last_typed_text], the call returns with the world
    unchanged (no sink call, no field changed), whatever the
    configuration, the clock, the fuel and the sink; the answer may still
    be true. *)
Theorem repeated_update_is_noop (config : STTConfig) (sink_ok : nat -> bool)
    (fuel : nat) (now : Q) (text : str) (w : World) :
  last_typed_text (self w) = text ->
  exists b,
    process_realtime_update config sink_ok fuel now text w = (Returned b, w).
Proof.
  intros E. unfold process_realtime_update.
  destruct (blank text) eqn:Hb; [now exists false|].
  destruct (negb (realtime_typing (basic config))); [now exists false|].
  unfold bind at 1, get.
  destruct (Qltb now (suppress_realtime_until (self w)));
    [now exists false|].
  destruct (_is_redundant_with_finalized (self w) text);
    [now exists false|].
  exists true. unfold bind, _type_realtime_text.
  rewrite (blank_false_truthy _ Hb). cbv [negb].
  unfold try_except, bind, get. now rewrite E, str_eqb_refl.
Qed.

Lemma repeated_update_is_noop_witness :
  let w := world_with (lit "Hello") [] 0 in
  exists b,
    process_realtime_update (config_with true (5 # 10) 512) (raises_from 0)
      0 1 (lit "Hello") w
    = (Returned b, w).
Proof.
  intros w.
  apply (@repeated_update_is_noop (config_with true (5 # 10) 512)
           (raises_from 0) 0 1 (lit "Hello") w).
  reflexivity.
Defined.

(** X20.  A stream of hypotheses that only grows is typed without a
    single backspace: when each text is the one before followed by a
    non-empty suffix, [_type_realtime_text] makes one sink call per text,
    typing exactly the new suffix, and the live text ends as the first
    text followed by all the suffixes (the sink not raising). *)
Theorem growing_stream_only_appends (config : STTConfig)
    (sink_ok : nat -> bool) (fuel : nat) (suffixes : list str)
    (start : str) (w : World) :
  (forall k, sink_ok k = true) ->
  Forall (fun suffix => suffix <> []) suffixes ->
  suffixes <> [] ->
  last_typed_text (self w) = start ->
  type_each config sink_ok fuel (growing start suffixes) w
  = (Returned tt,
     set_last_typed_text (start ++ concat suffixes)
       (advance w (length suffixes) (map Typewrite suffixes))).
Proof.
  intros Hok Hall. revert start w.
  induction Hall as [|suffix rest Hs Hall IH]; intros start w Hne Hstart;
    [now elim Hne|].
  simpl. unfold bind at 1.
  rewrite _type_realtime_text_append by auto.
  destruct rest as [|suffix' rest'].
  - simpl. unfold ret. rewrite app_nil_r. reflexivity.
  - rewrite IH; [|discriminate|reflexivity].
    change (set_last_typed_text ?v (advance (set_last_typed_text ?v' ?x) ?n ?e))
      with (set_last_typed_text v (advance x n e)).
    rewrite advance_advance.
    change (concat (suffix :: suffix' :: rest'))
      with (suffix ++ concat (suffix' :: rest')).
    rewrite app_assoc. reflexivity.
Qed.

Lemma growing_stream_only_appends_witness :
  type_each STTConfig_default reliable 0
    (growing (lit "He") [lit "l"; lit "lo"; lit " wor"; lit "ld"])
    (world_with (lit "He") [] 0)
  = (Returned tt,
     set_last_typed_text (lit "Hello world")
       (advance (world_with (lit "He") [] 0) 4
          [Typewrite (lit "l"); Typewrite (lit "lo");
           Typewrite (lit " wor"); Typewrite (lit "ld")])).
Proof.
  apply (@growing_stream_only_appends STTConfig_default reliable 0
           [lit "l"; lit "lo"; lit " wor"; lit "ld"] (lit "He")
           (world_with (lit "He") [] 0));
    [intros k; reflexivity | repeat constructor; discriminate
     | discriminate | reflexivity].
Defined.
